(** * Address, spent and timestamp index queries (src/rpc/index.cpp)

    A shallow embedding of the query layer of the index RPCs
    (getaddressbalance, getaddressesbalance, getaddressutxos,
    getaddressdeltas, getaddresstxids, getblockhashes, getaddressmempool,
    getspentinfo) together with the index records of src/spentindex.h,
    and the properties the specification states about them.

    Conventions of the embedding:
    - C++ [int], [unsigned int] and [CAmount] ([int64_t]) are integers of
      [Z]; every arithmetic operation of the source is followed by the
      wrap-around of its type (two's complement, what the supported
      compilers produce for the signed types);
    - an exception is a value of [Exception]; a handler returns
      [Result UniValue];
    - the collaborators whose code is outside this file (the block tree
      database, the active chain, the mempool, the address codec, the
      hexadecimal printers, [std::sort]) are record fields or section
      variables; nothing is assumed about what they return beyond their
      types, except for [std::sort], whose contract is the one of the C++
      standard. *)

From Stdlib Require Import ZArith Lia.
From stdpp Require Import base list strings sorting.

Local Open Scope string_scope.
Local Open Scope list_scope.
Local Open Scope Z_scope.

(** ** Machine integers *)

Module Int.

Definition wrap_signed (w z : Z) : Z :=
  (z + 2 ^ (w - 1)) mod 2 ^ w - 2 ^ (w - 1).

Definition wrap_unsigned (w z : Z) : Z := z mod 2 ^ w.

(** [int] *)
Definition int32 (z : Z) : Z := wrap_signed 32 z.
(** [unsigned int] *)
Definition uint32 (z : Z) : Z := wrap_unsigned 32 z.
(** [int64_t] *)
Definition int64 (z : Z) : Z := wrap_signed 64 z.

Definition INT_MIN : Z := - 2 ^ 31.
Definition INT_MAX : Z := 2 ^ 31 - 1.
Definition INT64_MIN : Z := - 2 ^ 63.
Definition INT64_MAX : Z := 2 ^ 63 - 1.

Definition in_int (z : Z) : Prop := INT_MIN <= z <= INT_MAX.
Definition in_int64 (z : Z) : Prop := INT64_MIN <= z <= INT64_MAX.

End Int.

Import Int.

(** ** The index records (src/spentindex.h) *)

(** A [uint256] is its value as a little-endian 256-bit number. *)
Abbreviation uint256 := Z (only parsing).
Abbreviation uint160 := Z (only parsing).
(** [CAmount] is [int64_t]. *)
Abbreviation CAmount := Z (only parsing).
(** A script is its bytes. *)
Abbreviation CScript := (list Z) (only parsing).

Record CSpentIndexKey := mkSpentIndexKey {
  sk_txid : uint256;
  sk_outputIndex : Z
}.

Record CSpentIndexValue := mkSpentIndexValue {
  sv_txid : uint256;
  sv_inputIndex : Z;
  sv_blockHeight : Z;
  sv_satoshis : CAmount;
  sv_addressType : Z;
  sv_addressHash : uint256
}.

Record CAddressUnspentKey := mkAddressUnspentKey {
  uk_type : Z;
  uk_hashBytes : uint256;
  uk_txhash : uint256;
  uk_index : Z
}.

Record CAddressUnspentValue := mkAddressUnspentValue {
  uv_satoshis : CAmount;
  uv_script : CScript;
  uv_blockHeight : Z
}.

Record CAddressIndexKey := mkAddressIndexKey {
  type : Z;
  hashBytes : uint256;
  blockHeight : Z;
  txindex : Z;
  txhash : uint256;
  index : Z;
  spending : bool
}.

(** Modelled from the spec: addressindex.h, which declares the two mempool
    delta records, is not among the sources. The fields are those of the
    "Mempool Address Delta" of the data model, under the names
    getaddressmempool reads them by. *)
Record CMempoolAddressDeltaKey := mkMempoolAddressDeltaKey {
  mk_type : Z;
  mk_addressBytes : uint256;
  mk_txhash : uint256;
  mk_index : Z
}.

Record CMempoolAddressDelta := mkMempoolAddressDelta {
  time : Z;
  amount : CAmount;
  prevhash : uint256;
  prevout : Z
}.

(** ** JSON values, exceptions and results *)

(** Modelled from the spec: the univalue library and rpc/protocol.h are
    not among the sources. A [UniValue] is the JSON value it holds, an
    object being its members in insertion order; the accessors below do
    what the handlers rely on: the typed getters throw on a value of
    another type, [find_value] and [operator[]] return the null value when
    there is nothing to return. *)

Set Warnings "-register-all".

Inductive NumLit :=
| IntLit (z : Z)
| FracLit (s : string).

Inductive UniValue :=
| VNULL
| VOBJ (kvs : list (string * UniValue))
| VARR (vs : list UniValue)
| VSTR (s : string)
| VNUM (n : NumLit)
| VBOOL (b : bool).

Definition VINT (z : Z) : UniValue := VNUM (IntLit z).

Inductive RPCErrorCode :=
| RPC_MISC_ERROR
| RPC_TYPE_ERROR
| RPC_INVALID_ADDRESS_OR_KEY
| RPC_INVALID_PARAMETER
| RPC_INTERNAL_ERROR
| RPC_CLIENT_MEMPOOL_DISABLED.

Inductive Exception :=
| JSONRPCError (code : RPCErrorCode) (message : string)
| runtime_error (what : string)
| null_dereference.

Inductive Result (A : Type) :=
| Ok (a : A)
| Throw (e : Exception).
Arguments Ok {A} a.
Arguments Throw {A} e.

(** Sequencing: an exception ends the handler. *)
#[export] Instance Result_bind : MBind Result := fun A B k m =>
  match m with
  | Ok a => k a
  | Throw e => Throw e
  end.

#[export] Instance Result_ret : MRet Result := fun A a => Ok a.

Definition isStr (v : UniValue) : bool := if v is VSTR _ then true else false.
Definition isNum (v : UniValue) : bool := if v is VNUM _ then true else false.
Definition isBool (v : UniValue) : bool := if v is VBOOL _ then true else false.
Definition isObject (v : UniValue) : bool := if v is VOBJ _ then true else false.
Definition isArray (v : UniValue) : bool := if v is VARR _ then true else false.

Definition get_str (v : UniValue) : Result string :=
  match v with
  | VSTR s => Ok s
  | _ => Throw (runtime_error "JSON value is not a string as expected")
  end.

Definition get_obj (v : UniValue) : Result UniValue :=
  match v with
  | VOBJ _ => Ok v
  | _ => Throw (runtime_error "JSON value is not an object as expected")
  end.

Definition get_bool (v : UniValue) : Result bool :=
  match v with
  | VBOOL b => Ok b
  | _ => Throw (runtime_error "JSON value is not a boolean as expected")
  end.

(** [getInt<int>]: the literal must be an integer in the range of [int]. *)
Definition getInt (v : UniValue) : Result Z :=
  match v with
  | VNUM (IntLit z) =>
      if (INT_MIN <=? z) && (z <=? INT_MAX) then Ok z
      else Throw (runtime_error "JSON integer out of range")
  | VNUM (FracLit _) => Throw (runtime_error "JSON integer out of range")
  | _ => Throw (runtime_error "JSON value is not an integer as expected")
  end.

Fixpoint find_key (kvs : list (string * UniValue)) (name : string) : UniValue :=
  match kvs with
  | [] => VNULL
  | (k, v) :: rest => if String.eqb k name then v else find_key rest name
  end.

(** [find_value(obj, name)]: the first member called [name], the null
    value when there is none. *)
Definition find_value (obj : UniValue) (name : string) : UniValue :=
  match obj with
  | VOBJ kvs => find_key kvs name
  | _ => VNULL
  end.

(** [params[i]]: the null value out of range. *)
Definition param (params : list UniValue) (i : nat) : UniValue :=
  default VNULL (params !! i).

Definition pushKV (obj : list (string * UniValue)) (k : string) (v : UniValue) :=
  obj ++ [(k, v)].

(** [for (it = xs.begin(); it != xs.end(); it++) body], where the body may
    throw. *)
Fixpoint for_each {X S : Type} (xs : list X) (body : X -> S -> Result S)
    (s : S) : Result S :=
  match xs with
  | [] => Ok s
  | x :: rest => s' ← body x s; for_each rest body s'
  end.

(** ** Collaborators *)

(** Modelled from the spec: the destination variants of the address codec,
    which the specification treats as an external collaborator. *)
Inductive CTxDestination :=
| CNoDestination
| PKHash (id : uint160)
| ScriptHash (id : uint160)
| WitnessV0ScriptHash (id : uint256)
| WitnessV0KeyHash (id : uint160)
| WitnessV1Taproot (id : uint256)
| WitnessUnknown (version : Z) (program : list Z).

(** Constants and pure helpers declared outside rpc/index.cpp, taken as
    parameters: the address-type codes of addressindex.h, the destination
    codec of key_io, the hexadecimal printers, the hash parser of rpc/util
    and the maturity constant of the consensus rules. *)
Class Externals := {
  ADDR_INDT_UNKNOWN : Z;
  ADDR_INDT_PUBKEY_ADDRESS : Z;
  ADDR_INDT_SCRIPT_ADDRESS : Z;
  ADDR_INDT_WITNESS_V0_KEYHASH : Z;
  ADDR_INDT_WITNESS_V0_SCRIPTHASH : Z;
  ADDR_INDT_WITNESS_V1_TAPROOT : Z;
  DecodeDestination : string -> CTxDestination;
  EncodeDestination : CTxDestination -> string;
  GetHex : uint256 -> string;
  HexStr : CScript -> string;
  ParseHashV : UniValue -> string -> Result uint256;
  COINBASE_MATURITY : Z
}.

(** Modelled from the spec: chain.h is not among the sources; a block
    index entry is the height and the hash the handlers read from it. *)
Record CBlockIndex := mkBlockIndex {
  nHeight : Z;
  GetBlockHash : uint256
}.

(** Modelled from the spec: the active chain, an external collaborator.
    [chain_at h] is [operator[]], [Contains] takes the pointer it is given,
    null included. *)
Record CChain := mkChain {
  Height : Z;
  chain_at : Z -> option CBlockIndex;
  Tip : option CBlockIndex;
  Contains : option CBlockIndex -> bool
}.

(** Modelled from the spec: the persistent store (txdb.h), an external
    collaborator. A read returns [None] when the C++ method returns false,
    and otherwise the entries it appends to the vector it was handed (the
    value it stores, for [ReadSpentIndex]). *)
Record CBlockTreeDB := mkBlockTreeDB {
  ReadAddressIndex :
    uint256 -> Z -> Z -> Z -> option (list (CAddressIndexKey * CAmount));
  ReadAddressUnspentIndex :
    uint256 -> Z -> option (list (CAddressUnspentKey * CAddressUnspentValue));
  ReadSpentIndex : CSpentIndexKey -> option CSpentIndexValue;
  ReadTimestampIndex : Z -> Z -> option (list (uint256 * Z))
}.

(** Modelled from the spec: the chain state the handlers reach through
    the chainstate manager (validation.h). *)
Record ChainstateManager := mkChainman {
  m_block_tree_db : CBlockTreeDB;
  ActiveChain : CChain;
  LookupBlockIndex : uint256 -> option CBlockIndex
}.

(** Modelled from the spec: the mempool collaborator (txmempool.h), as the
    two lookups the handlers call. [None] is a call that returns false. *)
Record CTxMemPool := mkMemPool {
  getSpentIndex : CSpentIndexKey -> option CSpentIndexValue;
  getAddressIndex :
    list (uint256 * Z) ->
    option (list (CMempoolAddressDeltaKey * CMempoolAddressDelta))
}.

(** Modelled from the spec: the node context of a request (node/context.h),
    whose chain manager and mempool may be absent. *)
Record NodeContext := mkNodeContext {
  chainman : option ChainstateManager;
  mempool : option CTxMemPool
}.

Record JSONRPCRequest := mkRequest {
  params : list UniValue;
  context : option NodeContext
}.

(** The three global feature flags [fAddressIndex], [fSpentIndex] and
    [fTimestampIndex], read by the code below; a handler takes their
    values as an argument. *)
Record Globals := mkGlobals {
  fAddressIndex : bool;
  fSpentIndex : bool;
  fTimestampIndex : bool
}.

(** Modelled from the spec: the accessors of rpc/server_util, which is not
    among the sources: the component of the context, or an exception when
    it is absent. *)
Definition EnsureAnyNodeContext (ctx : option NodeContext) : Result NodeContext :=
  match ctx with
  | Some node => Ok node
  | None => Throw (JSONRPCError RPC_INTERNAL_ERROR "Node context not found")
  end.

Definition EnsureChainman (node : NodeContext) : Result ChainstateManager :=
  match chainman node with
  | Some cm => Ok cm
  | None => Throw (JSONRPCError RPC_INTERNAL_ERROR "Node chainman not found")
  end.

Definition EnsureAnyChainman (ctx : option NodeContext) : Result ChainstateManager :=
  node ← EnsureAnyNodeContext ctx; EnsureChainman node.

Definition EnsureMemPool (node : NodeContext) : Result CTxMemPool :=
  match mempool node with
  | Some pool => Ok pool
  | None =>
      Throw (JSONRPCError RPC_CLIENT_MEMPOOL_DISABLED
               "Mempool disabled or instance not found")
  end.

(** ** [std::sort]

    The contract of the C++ standard: the result is a rearrangement of the
    range in which no element is ordered before one that precedes it; the
    order of equivalent elements is whatever the implementation does. *)

Record StrictWeakOrder {A : Type} (comp : A -> A -> bool) : Prop := {
  swo_irrefl : forall a, comp a a = false;
  swo_trans : forall a b c, comp a b = true -> comp b c = true -> comp a c = true;
  swo_incomp_trans : forall a b c,
    comp a b = false -> comp b a = false ->
    comp b c = false -> comp c b = false ->
    comp a c = false /\ comp c a = false
}.

Class StdSort := {
  std_sort : forall {A : Type}, (A -> A -> bool) -> list A -> list A;
  std_sort_perm : forall A (comp : A -> A -> bool) (l : list A),
    StrictWeakOrder comp -> std_sort comp l ≡ₚ l;
  std_sort_sorted : forall A (comp : A -> A -> bool) (l : list A),
    StrictWeakOrder comp ->
    StronglySorted (fun a b => comp b a = false) (std_sort comp l)
}.

(** One implementation of the contract: insertion from the right. *)
Fixpoint insert_sorted {A : Type} (comp : A -> A -> bool) (x : A) (l : list A) :=
  match l with
  | [] => [x]
  | y :: rest => if comp x y then x :: y :: rest else y :: insert_sorted comp x rest
  end.

Fixpoint insertion_sort {A : Type} (comp : A -> A -> bool) (l : list A) :=
  match l with
  | [] => []
  | x :: rest => insert_sorted comp x (insertion_sort comp rest)
  end.

(** ** The ordered set of (height, txid) pairs of getaddresstxids

    [std::set<std::pair<int, std::string>>]: the elements in strictly
    ascending order of [operator<] on pairs, each once. *)

(** [operator<] of [std::pair<int, std::string>]. *)
Definition pair_lt (a b : Z * string) : bool :=
  (a.1 <? b.1) || (negb (b.1 <? a.1) && String.ltb a.2 b.2).

(** [txids.insert(x)]: the set after the call and the [.second] of the
    returned pair (whether the element was new). *)
Fixpoint set_insert (x : Z * string) (s : list (Z * string))
    : list (Z * string) * bool :=
  match s with
  | [] => ([x], true)
  | y :: rest =>
      if pair_lt x y then (x :: y :: rest, true)
      else if pair_lt y x then
        let '(rest', fresh) := set_insert x rest in (y :: rest', fresh)
      else (y :: rest, false)
  end.

(** ** rpc/index.cpp *)

Section Index.
Context {E : Externals} {SORT : StdSort}.

Definition heightSort (a b : CAddressUnspentKey * CAddressUnspentValue) : bool :=
  uv_blockHeight a.2 <? uv_blockHeight b.2.

Definition timestampSort
    (a b : CMempoolAddressDeltaKey * CMempoolAddressDelta) : bool :=
  time a.2 <? time b.2.

(** [uint160(hash.begin(), 20)]: the first twenty bytes. *)
Definition first20 (hash : uint256) : uint160 := Z.land hash (Z.ones 160).

(** The address string, [None] when the function returns false. *)
Definition getAddressFromIndex (ty : Z) (hash : uint256) : option string :=
  if ty =? ADDR_INDT_SCRIPT_ADDRESS then
    Some (EncodeDestination (ScriptHash (first20 hash)))
  else if ty =? ADDR_INDT_PUBKEY_ADDRESS then
    Some (EncodeDestination (PKHash (first20 hash)))
  else if ty =? ADDR_INDT_WITNESS_V0_KEYHASH then
    Some (EncodeDestination (WitnessV0KeyHash (first20 hash)))
  else if ty =? ADDR_INDT_WITNESS_V0_SCRIPTHASH then
    Some (EncodeDestination (WitnessV0ScriptHash hash))
  else if ty =? ADDR_INDT_WITNESS_V1_TAPROOT then
    Some (EncodeDestination (WitnessV1Taproot hash))
  else None.

Definition IsValidDestination (dest : CTxDestination) : bool :=
  if dest is CNoDestination then false else true.

(** The pair (hashBytes, type) on success, [None] when the function
    returns false. [hashBytes] starts as zero, so the [memcpy] of a
    20-byte hash leaves the hash as its value. *)
Definition getIndexKey (str : string) : option (uint256 * Z) :=
  let dest := DecodeDestination str in
  if negb (IsValidDestination dest) then None
  else match dest with
       | PKHash id => Some (id, ADDR_INDT_PUBKEY_ADDRESS)
       | ScriptHash id => Some (id, ADDR_INDT_SCRIPT_ADDRESS)
       | WitnessV0KeyHash id => Some (id, ADDR_INDT_WITNESS_V0_KEYHASH)
       | WitnessV0ScriptHash id => Some (id, ADDR_INDT_WITNESS_V0_SCRIPTHASH)
       | WitnessV1Taproot id => Some (id, ADDR_INDT_WITNESS_V1_TAPROOT)
       | _ => None
       end.

Definition invalid_address : Exception :=
  JSONRPCError RPC_INVALID_ADDRESS_OR_KEY "Invalid address".

Definition push_address (str : string) (addresses : list (uint256 * Z))
    : Result (list (uint256 * Z)) :=
  match getIndexKey str with
  | None => Throw invalid_address
  | Some key => Ok (addresses ++ [key])
  end.

(** The returned boolean and the vector the function filled. *)
Definition getAddressesFromParams (params : list UniValue)
    (addresses : list (uint256 * Z)) : Result (bool * list (uint256 * Z)) :=
  if isStr (param params 0) then
    str ← get_str (param params 0);
    addresses ← push_address str addresses;
    Ok (true, addresses)
  else if isObject (param params 0) then
    obj ← get_obj (param params 0);
    let addressValues := find_value obj "addresses" in
    match addressValues with
    | VARR values =>
        addresses ← for_each values
          (fun it addresses => str ← get_str it; push_address str addresses)
          addresses;
        Ok (true, addresses)
    | _ =>
        Throw (JSONRPCError RPC_INVALID_ADDRESS_OR_KEY
                 "Addresses is expected to be an array")
    end
  else Throw invalid_address.

(** The stored value when the function returns true. *)
Definition GetSpentIndex (g : Globals) (chainman : ChainstateManager)
    (key : CSpentIndexKey) (pmempool : option CTxMemPool)
    : option CSpentIndexValue :=
  let pblocktree := m_block_tree_db chainman in
  if negb (fSpentIndex g) then None
  else
    match pmempool ≫= (fun pool => getSpentIndex pool key) with
    | Some value => Some value
    | None =>
        match ReadSpentIndex pblocktree key with
        | None => None
        | Some value => Some value
        end
    end.

(** [inl msg]: the function logged [msg] through [error] and returned
    false; [inr v]: it returned true and the vector is [v]. *)
Definition GetAddressIndex (g : Globals) (chainman : ChainstateManager)
    (addressHash : uint256) (ty : Z)
    (addressIndex : list (CAddressIndexKey * CAmount)) (start end_ : Z)
    : string + list (CAddressIndexKey * CAmount) :=
  let pblocktree := m_block_tree_db chainman in
  if negb (fAddressIndex g) then inl "Address index not enabled"
  else
    match ReadAddressIndex pblocktree addressHash ty start end_ with
    | None => inl "Unable to get txids for address"
    | Some entries => inr (addressIndex ++ entries)
    end.

Definition GetAddressUnspent (g : Globals) (chainman : ChainstateManager)
    (addressHash : uint256) (ty : Z)
    (unspentOutputs : list (CAddressUnspentKey * CAddressUnspentValue))
    : string + list (CAddressUnspentKey * CAddressUnspentValue) :=
  let pblocktree := m_block_tree_db chainman in
  if negb (fAddressIndex g) then inl "Address index not enabled"
  else
    match ReadAddressUnspentIndex pblocktree addressHash ty with
    | None => inl "Unable to get txids for address"
    | Some entries => inr (unspentOutputs ++ entries)
    end.

Definition HashOnchainActive (chainman : ChainstateManager) (hash : uint256)
    : bool :=
  let pblockindex := LookupBlockIndex chainman hash in
  if negb (Contains (ActiveChain chainman) pblockindex) then false else true.

(** The loop of GetTimestampIndex over the vector it erases from: [it] is
    the position of the iterator; [fuel] bounds the iterations, one per
    element suffices since each either erases an element or advances. *)
Fixpoint erase_inactive (fuel : nat) (chainman : ChainstateManager)
    (hashes : list (uint256 * Z)) (it : nat) : list (uint256 * Z) :=
  match fuel with
  | O => hashes
  | S fuel' =>
      match hashes !! it with
      | None => hashes
      | Some entry =>
          if negb (HashOnchainActive chainman entry.1) then
            erase_inactive fuel' chainman (delete it hashes) it
          else erase_inactive fuel' chainman hashes (S it)
      end
  end.

Definition GetTimestampIndex (g : Globals) (chainman : ChainstateManager)
    (high low : Z) (fActiveOnly : bool) (hashes : list (uint256 * Z))
    : string + list (uint256 * Z) :=
  let pblocktree := m_block_tree_db chainman in
  if negb (fTimestampIndex g) then inl "Timestamp index not enabled"
  else
    match ReadTimestampIndex pblocktree high low with
    | None => inl "Unable to get hashes for timestamps"
    | Some entries =>
        let hashes := hashes ++ entries in
        if fActiveOnly then
          inr (erase_inactive (length hashes) chainman hashes 0)
        else inr hashes
    end.

Definition no_information : Exception :=
  JSONRPCError RPC_INVALID_ADDRESS_OR_KEY "No information available for address".

Definition index_not_enabled : Exception :=
  JSONRPCError RPC_MISC_ERROR "Address index is not enabled.".

Definition unknown_address_type : Exception :=
  JSONRPCError RPC_INVALID_ADDRESS_OR_KEY "Unknown address type".

(** *** getaddressbalance *)

Record Totals := mkTotals {
  balance : CAmount;
  balance_spendable : CAmount;
  balance_immature : CAmount;
  received : CAmount
}.

Definition balance_step (nHeight : Z) (t : Totals)
    (it : CAddressIndexKey * CAmount) : Totals :=
  let received :=
    if it.2 >? 0 then int64 (received t + it.2) else received t in
  let '(balance_immature, balance_spendable) :=
    if (txindex it.1 =? 0)
       && (int32 (nHeight - blockHeight it.1) <? COINBASE_MATURITY)
    then (int64 (balance_immature t + it.2), balance_spendable t)
    else (balance_immature t, int64 (balance_spendable t + it.2)) in
  let balance := int64 (balance t + it.2) in
  mkTotals balance balance_spendable balance_immature received.

Definition balance_loop (nHeight : Z)
    (addressIndex : list (CAddressIndexKey * CAmount)) : Totals :=
  fold_left (balance_step nHeight) addressIndex (mkTotals 0 0 0 0).

Definition balance_result (t : Totals) : UniValue :=
  VOBJ (pushKV (pushKV (pushKV (pushKV []
    "balance" (VINT (balance t)))
    "balance_immature" (VINT (balance_immature t)))
    "balance_spendable" (VINT (balance_spendable t)))
    "received" (VINT (received t))).

Definition getaddressbalance (g : Globals) (request : JSONRPCRequest)
    : Result UniValue :=
  '(ok, addresses) ← getAddressesFromParams (params request) [];
  if negb ok then
    Throw (JSONRPCError RPC_INVALID_ADDRESS_OR_KEY "Invalid address 7")
  else
    chainman ← EnsureAnyChainman (context request);
    addressIndex ← for_each addresses
      (fun it addressIndex =>
         match GetAddressIndex g chainman it.1 it.2 addressIndex 0 0 with
         | inr addressIndex => Ok addressIndex
         | inl _ => Throw no_information
         end) [];
    let nHeight := int32 (uint32 (Height (ActiveChain chainman))) in
    Ok (balance_result (balance_loop nHeight addressIndex)).

(** *** getaddressesbalance *)

Definition addresses_balance_step (nHeight : Z) (t : Totals)
    (it : CAddressIndexKey * CAmount) : Totals :=
  let received :=
    if it.2 >? 0 then int64 (received t + it.2) else received t in
  let '(balance_immature, balance_spendable) :=
    if (txindex it.1 =? 0)
       && (int32 (nHeight - blockHeight it.1) <? COINBASE_MATURITY)
    then (int64 (balance_immature t + it.2), balance_spendable t)
    else (balance_immature t, int64 (balance_spendable t + it.2)) in
  let balance := int64 (balance t + it.2) in
  mkTotals balance balance_spendable balance_immature received.

Definition addresses_balance_loop (nHeight : Z)
    (addressIndex : list (CAddressIndexKey * CAmount)) : Totals :=
  fold_left (addresses_balance_step nHeight) addressIndex (mkTotals 0 0 0 0).

Definition getaddressesbalance (g : Globals) (request : JSONRPCRequest)
    : Result UniValue :=
  '(ok, addresses) ← getAddressesFromParams (params request) [];
  if negb ok then
    Throw (JSONRPCError RPC_INVALID_ADDRESS_OR_KEY "Invalid address 7")
  else
    chainman ← EnsureAnyChainman (context request);
    addressIndex ← for_each addresses
      (fun it addressIndex =>
         match GetAddressIndex g chainman it.1 it.2 addressIndex 0 0 with
         | inr addressIndex => Ok addressIndex
         | inl _ => Throw no_information
         end) [];
    let nHeight := int32 (uint32 (Height (ActiveChain chainman))) in
    let t := addresses_balance_loop nHeight addressIndex in
    Ok (VOBJ (pushKV (pushKV (pushKV (pushKV []
      "balance" (VINT (balance t)))
      "balance_immature" (VINT (balance_immature t)))
      "balance_spendable" (VINT (balance_spendable t)))
      "received" (VINT (received t)))).

(** *** getaddressutxos *)

Definition utxo_object (address : string)
    (it : CAddressUnspentKey * CAddressUnspentValue) : UniValue :=
  VOBJ (pushKV (pushKV (pushKV (pushKV (pushKV (pushKV []
    "address" (VSTR address))
    "txid" (VSTR (GetHex (uk_txhash it.1))))
    "outputIndex" (VINT (int32 (uk_index it.1))))
    "script" (VSTR (HexStr (uv_script it.2))))
    "satoshis" (VINT (uv_satoshis it.2)))
    "height" (VINT (uv_blockHeight it.2))).

Definition push_utxo (it : CAddressUnspentKey * CAddressUnspentValue)
    (utxos : list UniValue) : Result (list UniValue) :=
  match getAddressFromIndex (int32 (uk_type it.1)) (uk_hashBytes it.1) with
  | None => Throw unknown_address_type
  | Some address => Ok (utxos ++ [utxo_object address it])
  end.

(** The optional boolean member [chainInfo] of the first parameter. *)
Definition read_chainInfo (obj : UniValue) : Result bool :=
  let chainInfo := find_value obj "chainInfo" in
  if isBool chainInfo then get_bool chainInfo else Ok false.

Definition utxos_chainInfo (p0 : UniValue) : Result bool :=
  if isObject p0 then obj ← get_obj p0; read_chainInfo obj else Ok false.

(** The body of the loop over the addresses. *)
Definition read_unspent (g : Globals) (chainman : ChainstateManager)
    (it : uint256 * Z)
    (unspentOutputs : list (CAddressUnspentKey * CAddressUnspentValue))
    : Result (list (CAddressUnspentKey * CAddressUnspentValue)) :=
  match GetAddressUnspent g chainman it.1 it.2 unspentOutputs with
  | inr unspentOutputs => Ok unspentOutputs
  | inl _ => Throw no_information
  end.

Definition getaddressutxos (g : Globals) (request : JSONRPCRequest)
    : Result UniValue :=
  chainman ← EnsureAnyChainman (context request);
  if negb (fAddressIndex g) then Throw index_not_enabled
  else
    includeChainInfo ← utxos_chainInfo (param (params request) 0);
    '(ok, addresses) ← getAddressesFromParams (params request) [];
    if negb ok then Throw invalid_address
    else
      unspentOutputs ← for_each addresses (read_unspent g chainman) [];
      let unspentOutputs := std_sort heightSort unspentOutputs in
      utxos ← for_each unspentOutputs push_utxo [];
      if (includeChainInfo : bool) then
        match Tip (ActiveChain chainman) with
        | None => Throw null_dereference
        | Some tip =>
            Ok (VOBJ (pushKV (pushKV (pushKV []
              "utxos" (VARR utxos))
              "hash" (VSTR (GetHex (GetBlockHash tip))))
              "height" (VINT (Height (ActiveChain chainman)))))
        end
      else Ok (VARR utxos).

(** *** getaddressdeltas *)

Definition delta_object (address : string) (it : CAddressIndexKey * CAmount)
    : UniValue :=
  VOBJ (pushKV (pushKV (pushKV (pushKV (pushKV (pushKV []
    "satoshis" (VINT it.2))
    "txid" (VSTR (GetHex (txhash it.1))))
    "index" (VINT (int32 (index it.1))))
    "blockindex" (VINT (int32 (txindex it.1))))
    "height" (VINT (blockHeight it.1)))
    "address" (VSTR address)).

Definition push_delta (it : CAddressIndexKey * CAmount)
    (deltas : list UniValue) : Result (list UniValue) :=
  match getAddressFromIndex (int32 (type it.1)) (hashBytes it.1) with
  | None => Throw unknown_address_type
  | Some address => Ok (deltas ++ [delta_object address it])
  end.

(** The block of getaddressdeltas that reads and validates the range:
    the values of [start] and [end] after it. *)
Definition deltas_range (startValue endValue : UniValue) : Result (Z * Z) :=
  if isNum startValue && isNum endValue then
    start ← getInt startValue;
    end_ ← getInt endValue;
    if (start <=? 0) || (end_ <=? 0) then
      Throw (JSONRPCError RPC_INVALID_ADDRESS_OR_KEY
               "Start and end is expected to be greater than zero")
    else if end_ <? start then
      Throw (JSONRPCError RPC_INVALID_ADDRESS_OR_KEY
               "End value is expected to be greater than start")
    else Ok (start, end_)
  else Ok (0, 0).

(** The scan shared by getaddressdeltas and getaddresstxids: bounded when
    both heights are positive, unbounded otherwise. *)
Definition scan_address (g : Globals) (chainman : ChainstateManager)
    (start end_ : Z) (it : uint256 * Z)
    (addressIndex : list (CAddressIndexKey * CAmount))
    : Result (list (CAddressIndexKey * CAmount)) :=
  if (start >? 0) && (end_ >? 0) then
    match GetAddressIndex g chainman it.1 it.2 addressIndex start end_ with
    | inr addressIndex => Ok addressIndex
    | inl _ => Throw no_information
    end
  else
    match GetAddressIndex g chainman it.1 it.2 addressIndex 0 0 with
    | inr addressIndex => Ok addressIndex
    | inl _ => Throw no_information
    end.

Definition block_info (pindex : CBlockIndex) (height : Z) : UniValue :=
  VOBJ (pushKV (pushKV []
    "hash" (VSTR (GetHex (GetBlockHash pindex))))
    "height" (VINT height)).

(** The part of getaddressdeltas after the range has been read. *)
Definition deltas_body (g : Globals) (chainman : ChainstateManager)
    (params : list UniValue) (includeChainInfo : bool) (start end_ : Z)
    : Result UniValue :=
  '(ok, addresses) ← getAddressesFromParams params [];
  if negb ok then Throw invalid_address
  else
    addressIndex ← for_each addresses (scan_address g chainman start end_) [];
    deltas ← for_each addressIndex push_delta [];
    if includeChainInfo && (start >? 0) && (end_ >? 0) then
      let tip_height := Height (ActiveChain chainman) in
      if (start >? tip_height) || (end_ >? tip_height) then
        Throw (JSONRPCError RPC_INVALID_ADDRESS_OR_KEY
                 "Start or end is outside chain range")
      else
        match chain_at (ActiveChain chainman) start,
              chain_at (ActiveChain chainman) end_ with
        | Some startIndex, Some endIndex =>
            Ok (VOBJ (pushKV (pushKV (pushKV []
              "deltas" (VARR deltas))
              "start" (block_info startIndex start))
              "end" (block_info endIndex end_)))
        | _, _ => Throw null_dereference
        end
    else Ok (VARR deltas).

Definition getaddressdeltas (g : Globals) (request : JSONRPCRequest)
    : Result UniValue :=
  if negb (fAddressIndex g) then Throw index_not_enabled
  else
    chainman ← EnsureAnyChainman (context request);
    obj ← get_obj (param (params request) 0);
    let startValue := find_value obj "start" in
    let endValue := find_value obj "end" in
    includeChainInfo ← read_chainInfo obj;
    '(start, end_) ← deltas_range startValue endValue;
    deltas_body g chainman (params request) includeChainInfo start end_.

(** *** getaddresstxids *)

(** The optional range of getaddresstxids: read when the first parameter
    is an object and both members are numbers, not validated. *)
Definition txids_range (p0 : UniValue) : Result (Z * Z) :=
  if isObject p0 then
    obj ← get_obj p0;
    let startValue := find_value obj "start" in
    let endValue := find_value obj "end" in
    if isNum startValue && isNum endValue then
      start ← getInt startValue;
      end_ ← getInt endValue;
      Ok (start, end_)
    else Ok (0, 0)
  else Ok (0, 0).

(** The body of the loop over the scanned entries: the state is the set
    and the result array. *)
Definition txids_step (multi : bool)
    (st : list (Z * string) * list UniValue)
    (it : CAddressIndexKey * CAmount) : list (Z * string) * list UniValue :=
  let '(txids, result) := st in
  let height := blockHeight it.1 in
  let txid := GetHex (txhash it.1) in
  if multi then ((set_insert (height, txid) txids).1, result)
  else
    let '(txids, fresh) := set_insert (height, txid) txids in
    if fresh then (txids, result ++ [VSTR txid]) else (txids, result).

Definition txids_output (addresses : list (uint256 * Z))
    (addressIndex : list (CAddressIndexKey * CAmount)) : list UniValue :=
  let multi := (1 <? length addresses)%nat in
  let '(txids, result) := fold_left (txids_step multi) addressIndex ([], []) in
  if multi then result ++ map (fun it => VSTR it.2) txids else result.

Definition getaddresstxids (g : Globals) (request : JSONRPCRequest)
    : Result UniValue :=
  if negb (fAddressIndex g) then Throw index_not_enabled
  else
    chainman ← EnsureAnyChainman (context request);
    '(ok, addresses) ← getAddressesFromParams (params request) [];
    if negb ok then Throw invalid_address
    else
      '(start, end_) ← txids_range (param (params request) 0);
      addressIndex ← for_each addresses (scan_address g chainman start end_) [];
      Ok (VARR (txids_output addresses addressIndex)).

(** *** getblockhashes *)

Definition read_flag (obj : UniValue) (name : string) : Result bool :=
  let v := find_value obj name in
  if isBool v then get_bool v else Ok false.

Definition blockhash_item (fLogicalTS : bool) (it : uint256 * Z) : UniValue :=
  if fLogicalTS then
    VOBJ (pushKV (pushKV []
      "blockhash" (VSTR (GetHex it.1)))
      "logicalts" (VINT (int32 it.2)))
  else VSTR (GetHex it.1).

(** The pair ([fActiveOnly], [fLogicalTS]) read from the third parameter. *)
Definition blockhashes_options (params : list UniValue) : Result (bool * bool) :=
  if (2 <? length params)%nat && isObject (param params 2) then
    obj ← get_obj (param params 2);
    fActiveOnly ← read_flag obj "noOrphans";
    fLogicalTS ← read_flag obj "logicalTimes";
    Ok (fActiveOnly, fLogicalTS)
  else Ok (false, false).

Definition getblockhashes (g : Globals) (request : JSONRPCRequest)
    : Result UniValue :=
  chainman ← EnsureAnyChainman (context request);
  high ← getInt (param (params request) 0);
  low ← getInt (param (params request) 1);
  let high := uint32 high in
  let low := uint32 low in
  '(fActiveOnly, fLogicalTS) ← blockhashes_options (params request);
  match GetTimestampIndex g chainman high low fActiveOnly [] with
  | inl _ =>
      Throw (JSONRPCError RPC_INVALID_ADDRESS_OR_KEY
               "No information available for block hashes")
  | inr blockHashes => Ok (VARR (map (blockhash_item fLogicalTS) blockHashes))
  end.

(** *** getaddressmempool *)

Definition mempool_delta_object (address : string)
    (it : CMempoolAddressDeltaKey * CMempoolAddressDelta) : UniValue :=
  let delta := pushKV (pushKV (pushKV (pushKV (pushKV []
    "address" (VSTR address))
    "txid" (VSTR (GetHex (mk_txhash it.1))))
    "index" (VINT (int32 (mk_index it.1))))
    "satoshis" (VINT (amount it.2)))
    "timestamp" (VINT (time it.2)) in
  let delta :=
    if amount it.2 <? 0 then
      pushKV (pushKV delta
        "prevtxid" (VSTR (GetHex (prevhash it.2))))
        "prevout" (VINT (int32 (prevout it.2)))
    else delta in
  VOBJ delta.

Definition push_mempool_delta
    (it : CMempoolAddressDeltaKey * CMempoolAddressDelta)
    (result : list UniValue) : Result (list UniValue) :=
  match getAddressFromIndex (mk_type it.1) (mk_addressBytes it.1) with
  | None => Throw unknown_address_type
  | Some address => Ok (result ++ [mempool_delta_object address it])
  end.

Definition getaddressmempool (g : Globals) (request : JSONRPCRequest)
    : Result UniValue :=
  node ← EnsureAnyNodeContext (context request);
  mempool ← EnsureMemPool node;
  if negb (fAddressIndex g) then Throw index_not_enabled
  else
    '(ok, addresses) ← getAddressesFromParams (params request) [];
    if negb ok then Throw invalid_address
    else
      match getAddressIndex mempool addresses with
      | None => Throw no_information
      | Some indexes =>
          let indexes := std_sort timestampSort indexes in
          result ← for_each indexes push_mempool_delta [];
          Ok (VARR result)
      end.

(** *** getspentinfo *)

Definition unable_spent_info : Exception :=
  JSONRPCError RPC_INVALID_ADDRESS_OR_KEY "Unable to get spent info".

Definition spent_object (value : CSpentIndexValue) : UniValue :=
  VOBJ (pushKV (pushKV (pushKV []
    "txid" (VSTR (GetHex (sv_txid value))))
    "index" (VINT (int32 (sv_inputIndex value))))
    "height" (VINT (sv_blockHeight value))).

Definition getspentinfo (g : Globals) (request : JSONRPCRequest)
    : Result UniValue :=
  node ← EnsureAnyNodeContext (context request);
  mempool ← EnsureMemPool node;
  chainman ← EnsureChainman node;
  obj ← get_obj (param (params request) 0);
  let txidValue := find_value obj "txid" in
  let indexValue := find_value obj "index" in
  if negb (isStr txidValue) || negb (isNum indexValue) then
    Throw (JSONRPCError RPC_INVALID_ADDRESS_OR_KEY "Invalid txid or index")
  else
    txid ← ParseHashV txidValue "txid";
    outputIndex ← getInt indexValue;
    let key := mkSpentIndexKey txid (uint32 outputIndex) in
    match GetSpentIndex g chainman key (Some mempool) with
    | None => Throw unable_spent_info
    | Some value => Ok (spent_object value)
    end.

End Index.

(** * Properties *)

(** ** Machine integers *)

Module IntFacts.

Lemma int32_id z : in_int z -> int32 z = z.
Proof.
  unfold in_int, INT_MIN, INT_MAX, int32, wrap_signed. intros H.
  rewrite Z.mod_small; lia.
Qed.

Lemma int64_id z : in_int64 z -> int64 z = z.
Proof.
  unfold in_int64, INT64_MIN, INT64_MAX, int64, wrap_signed. intros H.
  rewrite Z.mod_small; lia.
Qed.

Lemma int64_range z : in_int64 (int64 z).
Proof.
  unfold in_int64, INT64_MIN, INT64_MAX, int64, wrap_signed.
  pose proof (Z.mod_pos_bound (z + 2 ^ (64 - 1)) (2 ^ 64)). lia.
Qed.

Lemma int64_add_l a b : int64 (int64 a + b) = int64 (a + b).
Proof.
  unfold int64, wrap_signed. f_equal.
  replace ((a + 2 ^ (64 - 1)) mod 2 ^ 64 - 2 ^ (64 - 1) + b + 2 ^ (64 - 1))
    with ((a + 2 ^ (64 - 1)) mod 2 ^ 64 + b) by lia.
  rewrite Zplus_mod_idemp_l. f_equal. lia.
Qed.

Lemma int64_add_r a b : int64 (a + int64 b) = int64 (a + b).
Proof. rewrite (Z.add_comm a), int64_add_l. f_equal. lia. Qed.

Lemma int64_idemp a : int64 (int64 a) = int64 a.
Proof. apply int64_id, int64_range. Qed.

(** [(int)(unsigned int) h]: the conversion written at the head of the
    balance loop. *)
Lemma int32_uint32 z : int32 (uint32 z) = int32 z.
Proof.
  unfold int32, uint32, wrap_signed, wrap_unsigned. f_equal.
  rewrite Zplus_mod_idemp_l. reflexivity.
Qed.

End IntFacts.

Import IntFacts.

(** ** Sequencing *)

Lemma bind_Ok {A B} (a : A) (k : A -> Result B) : Ok a ≫= k = k a.
Proof. reflexivity. Qed.

Lemma bind_Throw {A B} (e : Exception) (k : A -> Result B) :
  Throw e ≫= k = Throw e.
Proof. reflexivity. Qed.

Ltac step_bind := rewrite ?bind_Ok, ?bind_Throw; cbv beta iota.

(** ** Insertion sort meets the contract of [std::sort] *)

Lemma insert_sorted_perm {A} (comp : A -> A -> bool) x l :
  insert_sorted comp x l ≡ₚ x :: l.
Proof.
  induction l as [|y l IH]; simpl; [done|].
  destruct (comp x y); [done|]. rewrite IH. apply Permutation_swap.
Qed.

Lemma insertion_sort_perm {A} (comp : A -> A -> bool) l :
  insertion_sort comp l ≡ₚ l.
Proof.
  induction l as [|x l IH]; simpl; [done|].
  by rewrite insert_sorted_perm, IH.
Qed.

Lemma insert_sorted_sorted {A} (comp : A -> A -> bool) x l :
  StrictWeakOrder comp ->
  StronglySorted (fun a b => comp b a = false) l ->
  StronglySorted (fun a b => comp b a = false) (insert_sorted comp x l).
Proof.
  intros SWO. induction l as [|y l IH]; simpl; intros Hs.
  - repeat constructor.
  - apply StronglySorted_cons in Hs as [Hy Hl].
    destruct (comp x y) eqn:Hxy.
    + apply StronglySorted_cons. split.
      * constructor.
        -- destruct (comp y x) eqn:Hyx; [|done].
           pose proof (swo_trans _ SWO _ _ _ Hxy Hyx) as Hxx.
           by rewrite (swo_irrefl _ SWO) in Hxx.
        -- rewrite Forall_forall in Hy |- *. intros z Hz.
           destruct (comp z x) eqn:Hzx; [|done].
           pose proof (swo_trans _ SWO _ _ _ Hzx Hxy) as Hzy.
           by rewrite (Hy z Hz) in Hzy.
      * apply StronglySorted_cons; done.
    + apply StronglySorted_cons. split; [|by apply IH].
      rewrite (insert_sorted_perm comp x l). by constructor.
Qed.

Lemma insertion_sort_sorted {A} (comp : A -> A -> bool) l :
  StrictWeakOrder comp ->
  StronglySorted (fun a b => comp b a = false) (insertion_sort comp l).
Proof.
  intros SWO. induction l as [|x l IH]; simpl; [constructor|].
  by apply insert_sorted_sorted.
Qed.

Definition insertion_StdSort : StdSort := {|
  std_sort := @insertion_sort;
  std_sort_perm := fun A comp l _ => insertion_sort_perm comp l;
  std_sort_sorted := @insertion_sort_sorted
|}.


(** ** Sums of deltas *)

Definition deltas (addressIndex : list (CAddressIndexKey * CAmount)) : list Z :=
  addressIndex.*2.

(** The sum over the integers. *)
Definition sumZ (l : list Z) : Z := foldr Z.add 0 l.

(** The sum in [CAmount] arithmetic, added left to right. *)
Definition sum64 (l : list Z) : Z := fold_left (fun acc d => int64 (acc + d)) l 0.

(** No sum of any selection of the deltas leaves the range of [CAmount]. *)
Definition no_overflow (addressIndex : list (CAddressIndexKey * CAmount)) : Prop :=
  sumZ (Z.abs <$> deltas addressIndex) <= INT64_MAX.

Lemma sumZ_cons d l : sumZ (d :: l) = d + sumZ l.
Proof. reflexivity. Qed.

Lemma sum64_from l a :
  int64 a = a ->
  fold_left (fun acc d => int64 (acc + d)) l a = int64 (a + sumZ l).
Proof.
  revert a. induction l as [|d l IH]; simpl; intros a Ha.
  - by rewrite Z.add_0_r.
  - rewrite IH by apply int64_idemp.
    rewrite int64_add_l. f_equal. lia.
Qed.

Lemma sum64_sumZ l : sum64 l = int64 (sumZ l).
Proof. unfold sum64. by rewrite sum64_from. Qed.

Lemma sumZ_select_split {X} (v : X -> Z) (P : X -> Prop)
    `{!forall x, Decision (P x)} (l : list X) :
  sumZ (v <$> filter P l) + sumZ (v <$> filter (fun x => ~ P x) l)
  = sumZ (v <$> l).
Proof.
  induction l as [|x l IH]; [done|].
  rewrite !filter_cons.
  destruct (decide (P x)), (decide (~ P x));
    rewrite ?fmap_cons, ?sumZ_cons; try lia; tauto.
Qed.

Lemma sumZ_select_bound {X} (v : X -> Z) (P : X -> Prop)
    `{!forall x, Decision (P x)} (l : list X) :
  Z.abs (sumZ (v <$> filter P l)) <= sumZ (Z.abs <$> (v <$> l)).
Proof.
  induction l as [|x l IH]; [done|].
  rewrite filter_cons, !fmap_cons.
  destruct (decide (P x)); rewrite ?fmap_cons, ?sumZ_cons; lia.
Qed.

Lemma filter_snd {X} (P : Z -> Prop) `{!forall d, Decision (P d)}
    (l : list (X * Z)) :
  (filter (fun it => P it.2) l).*2 = filter P l.*2.
Proof.
  induction l as [|it l IH]; [done|].
  rewrite fmap_cons, !filter_cons.
  destruct (decide (P it.2)); [rewrite fmap_cons|]; by rewrite IH.
Qed.

Lemma sumZ_signs l :
  sumZ (filter (fun d => 0 < d) l) + sumZ (filter (fun d => d < 0) l) = sumZ l.
Proof.
  induction l as [|d l IH]; [done|].
  rewrite !filter_cons.
  destruct (decide (0 < d)), (decide (d < 0)); rewrite ?sumZ_cons; lia.
Qed.

Lemma sumZ_bound l : Z.abs (sumZ l) <= sumZ (Z.abs <$> l).
Proof. induction l as [|d l IH]; [done|]. rewrite fmap_cons, !sumZ_cons. lia. Qed.

Lemma in_int64_of_abs z : Z.abs z <= INT64_MAX -> in_int64 z.
Proof. unfold in_int64, INT64_MIN, INT64_MAX. lia. Qed.

(** ** The balance loop *)

Section Balance.
Context {E : Externals}.

(** The test of the loop that sends a delta to the immature bucket. *)
Definition counted_immature (nHeight : Z) (it : CAddressIndexKey * CAmount) : bool :=
  (txindex it.1 =? 0) && (int32 (nHeight - blockHeight it.1) <? COINBASE_MATURITY).

(** The wording of the specification: a coinbase entry (position 0 in its
    block) whose age is below the maturity threshold. *)
Definition immature_coinbase (H : Z) (key : CAddressIndexKey) : Prop :=
  txindex key = 0 /\ H - blockHeight key < COINBASE_MATURITY.

#[local] Instance immature_coinbase_dec H key : Decision (immature_coinbase H key).
Proof. unfold immature_coinbase. apply _. Defined.

Lemma balance_step_balance n t it :
  balance (balance_step n t it) = int64 (balance t + it.2).
Proof. unfold balance_step. by destruct (_ && _). Qed.

Lemma balance_step_received n t it :
  received (balance_step n t it)
  = if it.2 >? 0 then int64 (received t + it.2) else received t.
Proof. unfold balance_step. by destruct (_ && _). Qed.

Lemma balance_step_immature n t it :
  balance_immature (balance_step n t it)
  = if counted_immature n it then int64 (balance_immature t + it.2)
    else balance_immature t.
Proof. unfold balance_step, counted_immature. by destruct (_ && _). Qed.

Lemma balance_step_spendable n t it :
  balance_spendable (balance_step n t it)
  = if counted_immature n it then balance_spendable t
    else int64 (balance_spendable t + it.2).
Proof. unfold balance_step, counted_immature. by destruct (_ && _). Qed.

Lemma fold_cond (c : CAddressIndexKey * CAmount -> bool) l a :
  int64 a = a ->
  fold_left (fun acc it => if c it then int64 (acc + it.2) else acc) l a
  = int64 (a + sumZ (filter (fun it => c it = true) l).*2).
Proof.
  revert a. induction l as [|it l IH]; simpl; intros a Ha.
  - by rewrite Z.add_0_r.
  - rewrite filter_cons. destruct (decide (c it = true)) as [Hc|Hc].
    + rewrite Hc, fmap_cons, sumZ_cons, IH by apply int64_idemp.
      rewrite int64_add_l. f_equal. lia.
    + apply not_true_is_false in Hc. rewrite Hc. by rewrite IH.
Qed.

Lemma fold_all (l : list (CAddressIndexKey * CAmount)) a :
  int64 a = a ->
  fold_left (fun acc it => int64 (acc + it.2)) l a = int64 (a + sumZ l.*2).
Proof.
  revert a. induction l as [|it l IH]; intros a Ha.
  - simpl. by rewrite Z.add_0_r.
  - cbn [fold_left]. rewrite IH by apply int64_idemp.
    rewrite fmap_cons, sumZ_cons, int64_add_l. f_equal. lia.
Qed.

Lemma balance_loop_fields n l t :
  fold_left (balance_step n) l t
  = mkTotals
      (fold_left (fun acc it => int64 (acc + it.2)) l (balance t))
      (fold_left (fun acc it =>
                    if negb (counted_immature n it) then int64 (acc + it.2)
                    else acc) l (balance_spendable t))
      (fold_left (fun acc it =>
                    if counted_immature n it then int64 (acc + it.2) else acc)
         l (balance_immature t))
      (fold_left (fun acc it => if it.2 >? 0 then int64 (acc + it.2) else acc)
         l (received t)).
Proof.
  revert t. induction l as [|it l IH]; intros t; [by destruct t|].
  simpl. rewrite IH, balance_step_balance, balance_step_received,
    balance_step_immature, balance_step_spendable.
  by destruct (counted_immature n it).
Qed.

(** What the loop computes: each total is the [CAmount] value of the sum
    of the deltas it selects. *)
Lemma balance_loop_spec n idx :
  let t := balance_loop n idx in
  balance t = int64 (sumZ (deltas idx)) /\
  balance_immature t
  = int64 (sumZ (deltas (filter (fun it => counted_immature n it = true) idx))) /\
  balance_spendable t
  = int64 (sumZ (deltas (filter (fun it => ~ counted_immature n it = true) idx))) /\
  received t = int64 (sumZ (filter (fun d => 0 < d) (deltas idx))).
Proof.
  unfold balance_loop, deltas. rewrite balance_loop_fields.
  rewrite fold_all, !fold_cond by reflexivity. cbn [balance balance_spendable
    balance_immature received]. rewrite !Z.add_0_l. repeat split.
  - f_equal. f_equal. f_equal. apply list_filter_iff. intros it.
    destruct (counted_immature n it); naive_solver.
  - f_equal. f_equal. rewrite <- (filter_snd (fun d => 0 < d)). f_equal.
    apply list_filter_iff. intros it. simpl. lia.
Qed.

Lemma no_overflow_select idx (P : CAddressIndexKey * CAmount -> Prop)
    `{!forall it, Decision (P it)} :
  no_overflow idx -> in_int64 (sumZ (deltas (filter P idx))).
Proof.
  unfold no_overflow, deltas. intros Hno. apply in_int64_of_abs.
  etrans; [apply sumZ_select_bound|done].
Qed.

Lemma no_overflow_all idx : no_overflow idx -> in_int64 (sumZ (deltas idx)).
Proof.
  unfold no_overflow. intros H. apply in_int64_of_abs.
  etrans; [apply sumZ_bound|done].
Qed.

(** C1. For every list of address-index entries and every height, the
    totals of the balance loop satisfy
    balance == immature + spendable and
    balance == received + (sum of the negative deltas), where received is
    the sum of the positive deltas and balance the sum of all deltas. The
    first four equations are in the arithmetic of [CAmount], as the
    program computes them; when no sum of deltas overflows they are the
    same equations over the integers. *)
Theorem balance_additivity (nHeight : Z)
    (addressIndex : list (CAddressIndexKey * CAmount)) :
  let t := balance_loop nHeight addressIndex in
  let ds := deltas addressIndex in
  (balance t = int64 (balance_immature t + balance_spendable t) /\
   balance t = int64 (received t + sum64 (filter (fun d => d < 0) ds)) /\
   received t = sum64 (filter (fun d => 0 < d) ds) /\
   balance t = sum64 ds) /\
  (no_overflow addressIndex ->
   balance t = balance_immature t + balance_spendable t /\
   balance t = received t + sumZ (filter (fun d => d < 0) ds) /\
   received t = sumZ (filter (fun d => 0 < d) ds) /\
   balance t = sumZ ds).
Proof.
  intros t ds.
  destruct (balance_loop_spec nHeight addressIndex) as (Hb & Hi & Hs & Hr).
  fold t in Hb, Hi, Hs, Hr. fold ds in Hb, Hr.
  pose proof (sumZ_select_split snd
    (fun it => counted_immature nHeight it = true) addressIndex) as Hsplit.
  pose proof (sumZ_signs ds) as Hsigns.
  fold (deltas addressIndex) in Hsplit. fold ds in Hsplit.
  cbv beta in Hsplit. fold (deltas) in Hsplit.
  split.
  - rewrite !sum64_sumZ. repeat split; [| |done|done].
    + rewrite Hb, Hi, Hs, int64_add_l, int64_add_r. f_equal.
      unfold deltas in *. lia.
    + rewrite Hb, Hr, int64_add_l, int64_add_r. f_equal. lia.
  - intros Hno.
    pose proof (no_overflow_all _ Hno) as Iall.
    pose proof (no_overflow_select _
      (fun it => counted_immature nHeight it = true) Hno) as Iimm.
    pose proof (no_overflow_select _
      (fun it => ~ counted_immature nHeight it = true) Hno) as Ispend.
    pose proof (no_overflow_select _ (fun it => 0 < it.2) Hno) as Ipos.
    unfold deltas in Ipos. rewrite (filter_snd (fun d => 0 < d)) in Ipos.
    fold (deltas addressIndex) in Ipos. fold ds in Ipos, Iall.
    rewrite int64_id in Hb, Hi, Hs, Hr by done.
    unfold deltas in *.
    repeat split; lia.
Qed.

Lemma filter_iff_Forall {X} (P1 P2 : X -> Prop)
    `{!forall x, Decision (P1 x), !forall x, Decision (P2 x)} (l : list X) :
  Forall (fun x => P1 x <-> P2 x) l -> filter P1 l = filter P2 l.
Proof.
  induction 1 as [|x l Hx _ IH]; [done|].
  rewrite !filter_cons, IH.
  destruct (decide (P1 x)), (decide (P2 x)); tauto.
Qed.

(** Within the range of block heights the test of the loop is the test of
    the specification: no subtraction wraps. *)
Lemma counted_immature_spec (H : Z) (it : CAddressIndexKey * CAmount) :
  -1 <= H <= INT_MAX ->
  0 <= blockHeight it.1 <= INT_MAX ->
  counted_immature (int32 (uint32 H)) it = true <-> immature_coinbase H it.1.
Proof.
  intros HH Hh. unfold counted_immature, immature_coinbase.
  rewrite int32_uint32, (int32_id H), int32_id
    by (unfold in_int, INT_MIN, INT_MAX in *; lia).
  rewrite andb_true_iff, Z.eqb_eq, Z.ltb_lt. done.
Qed.

(** C4. For every current height H and every entry (heights in the range
    of block heights), the balance loop adds the entry's delta to the
    immature total iff the entry's position in its block is 0 and
    H - blockHeight is strictly below COINBASE_MATURITY, and to the
    spendable total otherwise; so the immature total is the sum of the
    deltas of those entries and the spendable total the sum of the others.
    With a maturity of 100, one coinbase delta of 50 at height 100 gives
    balance 50, received 50, immature 50, spendable 0 at tip 100, and
    immature 0, spendable 50 at tip 200. *)
Theorem balance_buckets (H : Z)
    (addressIndex : list (CAddressIndexKey * CAmount)) :
  -1 <= H <= INT_MAX ->
  Forall (fun it => 0 <= blockHeight it.1 <= INT_MAX) addressIndex ->
  let nHeight := int32 (uint32 H) in
  (forall t it, it ∈ addressIndex ->
     (immature_coinbase H it.1 ->
        balance_immature (balance_step nHeight t it)
        = int64 (balance_immature t + it.2) /\
        balance_spendable (balance_step nHeight t it) = balance_spendable t) /\
     (~ immature_coinbase H it.1 ->
        balance_immature (balance_step nHeight t it) = balance_immature t /\
        balance_spendable (balance_step nHeight t it)
        = int64 (balance_spendable t + it.2))) /\
  (let t := balance_loop nHeight addressIndex in
   balance_immature t
   = sum64 (deltas (filter (fun it => immature_coinbase H it.1) addressIndex)) /\
   balance_spendable t
   = sum64 (deltas (filter (fun it => ~ immature_coinbase H it.1) addressIndex))) /\
  (COINBASE_MATURITY = 100 ->
   forall key, txindex key = 0 -> blockHeight key = 100 ->
     balance_loop (int32 (uint32 100)) [(key, 50)] = mkTotals 50 0 50 50 /\
     balance_loop (int32 (uint32 200)) [(key, 50)] = mkTotals 50 50 0 50).
Proof.
  intros HH Hall nHeight. subst nHeight. split; [|split].
  - intros t it Hin. rewrite Forall_forall in Hall.
    pose proof (counted_immature_spec H it HH (Hall it Hin)) as Hspec.
    rewrite balance_step_immature, balance_step_spendable.
    destruct (counted_immature _ it); split; intros Him; try done.
    + destruct Him. by apply Hspec.
    + by apply Hspec in Him.
  - destruct (balance_loop_spec (int32 (uint32 H)) addressIndex)
      as (_ & Hi & Hs & _).
    cbv zeta. rewrite Hi, Hs, !sum64_sumZ. split; do 3 f_equal.
    + apply filter_iff_Forall. eapply Forall_impl; [exact Hall|].
      intros it Hit. by apply counted_immature_spec.
    + apply filter_iff_Forall. eapply Forall_impl; [exact Hall|].
      intros it Hit. simpl. by rewrite (counted_immature_spec H it HH Hit).
  - intros HM key Htx Hbh.
    unfold balance_loop, balance_step. simpl fold_left. cbn [fst snd].
    rewrite Htx, Hbh, HM. split; reflexivity.
Qed.

(** The query returns the totals of the loop over the scanned entries. *)
Lemma getaddressbalance_returns (g : Globals) (request : JSONRPCRequest)
    (cm : ChainstateManager) (addresses : list (uint256 * Z))
    (addressIndex : list (CAddressIndexKey * CAmount)) :
  getAddressesFromParams (params request) [] = Ok (true, addresses) ->
  EnsureAnyChainman (context request) = Ok cm ->
  for_each addresses
    (fun it addressIndex =>
       match GetAddressIndex g cm it.1 it.2 addressIndex 0 0 with
       | inr addressIndex => Ok addressIndex
       | inl _ => Throw no_information
       end) [] = Ok addressIndex ->
  getaddressbalance g request
  = Ok (balance_result
          (balance_loop (int32 (uint32 (Height (ActiveChain cm)))) addressIndex)).
Proof.
  intros Haddr Hcm Hscan. unfold getaddressbalance.
  rewrite Haddr. step_bind. simpl negb. cbv iota. rewrite Hcm. step_bind.
  rewrite Hscan. by step_bind.
Qed.

(** C10. getaddressbalance and getaddressesbalance return the same result
    (the same totals from the same scanned entries, or the same exception)
    for every request and index state. *)
Theorem balance_handlers_agree (g : Globals) (request : JSONRPCRequest) :
  getaddressbalance g request = getaddressesbalance g request.
Proof.
  assert (Hloop : forall n idx,
    balance_loop n idx = addresses_balance_loop n idx).
  { intros n idx. unfold balance_loop, addresses_balance_loop.
    generalize (mkTotals 0 0 0 0). induction idx as [|it idx IH]; [done|].
    intros t. simpl. rewrite IH. reflexivity. }
  unfold getaddressbalance, getaddressesbalance.
  destruct (getAddressesFromParams (params request) []) as [[ok addresses]|e];
    [|done].
  step_bind. destruct ok; [|done]. simpl negb. cbv iota.
  destruct (EnsureAnyChainman (context request)) as [chainman|e]; [|done].
  step_bind. destruct (for_each addresses _ []) as [addressIndex|e]; [|done].
  step_bind. unfold balance_result. by rewrite Hloop.
Qed.

End Balance.

(** ** The timestamp index *)

Section Timestamp.

(** The test of the specification: the block of the entry is on the active
    chain. *)
Definition on_active_chain (chainman : ChainstateManager) (it : uint256 * Z)
    : Prop :=
  Contains (ActiveChain chainman) (LookupBlockIndex chainman it.1) = true.

#[local] Instance on_active_chain_dec cm it : Decision (on_active_chain cm it).
Proof. unfold on_active_chain. apply _. Defined.

Lemma HashOnchainActive_spec cm it :
  HashOnchainActive cm it.1 = true <-> on_active_chain cm it.
Proof.
  unfold HashOnchainActive, on_active_chain.
  by destruct (Contains _ _).
Qed.

(** The erasing loop, started at position [it] with enough fuel, keeps the
    prefix it has passed and filters the rest. *)
Lemma erase_inactive_spec fuel cm hashes it :
  (length hashes - it <= fuel)%nat ->
  erase_inactive fuel cm hashes it
  = take it hashes ++ filter (on_active_chain cm) (drop it hashes).
Proof.
  revert hashes it. induction fuel as [|fuel IH]; intros hashes it Hfuel.
  - simpl. rewrite drop_ge, take_ge by lia. by rewrite app_nil_r.
  - simpl. destruct (hashes !! it) as [entry|] eqn:Hit.
    + pose proof (lookup_lt_Some _ _ _ Hit) as Hlt.
      rewrite (drop_S _ _ _ Hit), filter_cons.
      destruct (HashOnchainActive cm entry.1) eqn:Hact; simpl.
      * rewrite decide_True by by apply HashOnchainActive_spec.
        rewrite IH by lia. rewrite (take_S_r _ _ _ Hit).
        by rewrite <- app_assoc.
      * rewrite decide_False
          by (rewrite <- HashOnchainActive_spec; congruence).
        rewrite IH by (rewrite length_delete by eauto; lia).
        rewrite delete_take_drop.
        rewrite take_app_length' by (rewrite length_take; lia).
        by rewrite drop_app_length' by (rewrite length_take; lia).
    + apply lookup_ge_None_1 in Hit.
      rewrite drop_ge, take_ge by lia. by rewrite app_nil_r.
Qed.

(** C7. For every bounds (high, low) and every list of (hash, timestamp)
    entries the timestamp-index scan returns: with the active-only option
    the result is exactly the entries whose block hash is on the active
    chain (every other entry is removed, every such entry is kept, in scan
    order), it is a subsequence of the unfiltered result, and without the
    option the result is the scan. *)
Theorem timestamp_active_only (g : Globals) (chainman : ChainstateManager)
    (high low : Z) (entries : list (uint256 * Z)) :
  fTimestampIndex g = true ->
  ReadTimestampIndex (m_block_tree_db chainman) high low = Some entries ->
  exists kept,
    GetTimestampIndex g chainman high low true [] = inr kept /\
    GetTimestampIndex g chainman high low false [] = inr entries /\
    kept = filter (on_active_chain chainman) entries /\
    (forall it, it ∈ kept <-> it ∈ entries /\ on_active_chain chainman it) /\
    kept `sublist_of` entries.
Proof.
  intros Hflag Hread. exists (filter (on_active_chain chainman) entries).
  unfold GetTimestampIndex. rewrite Hflag, Hread. simpl.
  rewrite erase_inactive_spec by lia. simpl. rewrite drop_0.
  do 3 (split; [done|]). split; [|apply sublist_filter].
  intros it. rewrite list_elem_of_filter. tauto.
Qed.

End Timestamp.

(** ** The spent index *)

Section Spent.
Context {E : Externals}.

(** A request getspentinfo can serve: the node has a mempool and a chain
    manager, and the first parameter is an object whose [txid] is a string
    that parses to [txid] and whose [index] is the integer [i]. *)
Definition spentinfo_request (request : JSONRPCRequest) (pool : CTxMemPool)
    (cm : ChainstateManager) (txid : uint256) (i : Z) : Prop :=
  exists node kvs s,
    context request = Some node /\
    mempool node = Some pool /\
    chainman node = Some cm /\
    param (params request) 0 = VOBJ kvs /\
    find_key kvs "txid" = VSTR s /\
    ParseHashV (VSTR s) "txid" = Ok txid /\
    find_key kvs "index" = VINT i /\
    in_int i.

Lemma getInt_VINT i : in_int i -> getInt (VINT i) = Ok i.
Proof.
  unfold in_int, getInt, VINT. intros Hi.
  destruct (INT_MIN <=? i) eqn:H1, (i <=? INT_MAX) eqn:H2; try done; lia.
Qed.

(** The handler on such a request is the lookup. *)
Lemma getspentinfo_lookup g request pool cm txid i :
  spentinfo_request request pool cm txid i ->
  getspentinfo g request
  = match GetSpentIndex g cm (mkSpentIndexKey txid (uint32 i)) (Some pool) with
    | None => Throw unable_spent_info
    | Some value => Ok (spent_object value)
    end.
Proof.
  intros (node & kvs & s & Hctx & Hpool & Hcm & Hobj & Htxid & Hparse & Hidx & Hi).
  unfold getspentinfo, EnsureAnyNodeContext, EnsureMemPool, EnsureChainman.
  rewrite Hctx. step_bind. rewrite Hpool. step_bind. rewrite Hcm. step_bind.
  rewrite Hobj. simpl get_obj. step_bind. simpl find_value.
  rewrite Htxid, Hidx. simpl isStr. simpl isNum. simpl negb. simpl orb.
  cbv iota. rewrite Hparse. step_bind. rewrite getInt_VINT by done.
  by step_bind.
Qed.

(** C5. With the spent index enabled, for every txid and output index:
    SpentInfo returns the mempool's record when the mempool has one;
    otherwise it returns the record of the persistent spent index; and it
    fails with the not-found error exactly when neither has a record. *)
Theorem spentinfo_mempool_then_index (g : Globals) (request : JSONRPCRequest)
    (pool : CTxMemPool) (cm : ChainstateManager) (txid : uint256) (i : Z) :
  fSpentIndex g = true ->
  spentinfo_request request pool cm txid i ->
  let key := mkSpentIndexKey txid (uint32 i) in
  let db := m_block_tree_db cm in
  (forall value, getSpentIndex pool key = Some value ->
     GetSpentIndex g cm key (Some pool) = Some value /\
     getspentinfo g request = Ok (spent_object value)) /\
  (forall value, getSpentIndex pool key = None ->
     ReadSpentIndex db key = Some value ->
     GetSpentIndex g cm key (Some pool) = Some value /\
     getspentinfo g request = Ok (spent_object value)) /\
  (getspentinfo g request = Throw unable_spent_info <->
   getSpentIndex pool key = None /\ ReadSpentIndex db key = None).
Proof.
  intros Hflag Hreq key db.
  rewrite (getspentinfo_lookup g request pool cm txid i Hreq).
  fold key. unfold GetSpentIndex. rewrite Hflag. simpl. fold db.
  destruct (getSpentIndex pool key) as [v1|] eqn:Hpool;
    destruct (ReadSpentIndex db key) as [v2|] eqn:Hdb; simpl;
    repeat split; intros; try done; intuition congruence.
Qed.

End Spent.

(** ** Sorted outputs: getaddressutxos and getaddressmempool *)

Section Sorted.
Context {E : Externals} {SORT : StdSort}.

Lemma key_lt_swo {X} (f : X -> Z) : StrictWeakOrder (fun a b => f a <? f b).
Proof.
  split.
  - intros a. apply Z.ltb_irrefl.
  - intros a b c. rewrite !Z.ltb_lt. lia.
  - intros a b c. rewrite !Z.ltb_ge. lia.
Qed.

Lemma heightSort_swo : StrictWeakOrder heightSort.
Proof. apply (key_lt_swo (fun it => uv_blockHeight it.2)). Qed.

Lemma timestampSort_swo : StrictWeakOrder timestampSort.
Proof. apply (key_lt_swo (fun it => time it.2)). Qed.

(** [std::sort] with a comparator "key a < key b" leaves the keys in
    non-decreasing order. *)
Lemma std_sort_keys {X} (f : X -> Z) (l : list X) :
  StronglySorted Z.le (f <$> std_sort (fun a b => f a <? f b) l).
Proof.
  eapply StronglySorted_fmap; [|apply std_sort_sorted, key_lt_swo].
  intros x y. simpl. rewrite Z.ltb_ge. done.
Qed.

(** A loop that renders each element and appends it, or throws at the
    first element that has no rendering. *)
Lemma for_each_render {X} (render : X -> option UniValue) (e : Exception)
    (body : X -> list UniValue -> Result (list UniValue)) l acc :
  (forall it acc, body it acc
     = match render it with
       | None => Throw e
       | Some o => Ok (acc ++ [o])
       end) ->
  for_each l body acc
  = match mapM render l with
    | Some os => Ok (acc ++ os)
    | None => Throw e
    end.
Proof.
  intros Hbody. revert acc. induction l as [|it l IH]; intros acc.
  - simpl. by rewrite app_nil_r.
  - cbn [for_each]. rewrite Hbody. cbn [mapM].
    destruct (render it) as [o|]; [|done]. step_bind. rewrite IH. simpl.
    destruct (mapM render l); simpl; [|done]. by rewrite <- app_assoc.
Qed.

(** The object getaddressutxos emits for an entry, when its address type
    is known. *)
Definition utxo_render (it : CAddressUnspentKey * CAddressUnspentValue)
    : option UniValue :=
  address ← getAddressFromIndex (int32 (uk_type it.1)) (uk_hashBytes it.1);
  Some (utxo_object address it).

Definition mempool_delta_render
    (it : CMempoolAddressDeltaKey * CMempoolAddressDelta) : option UniValue :=
  address ← getAddressFromIndex (mk_type it.1) (mk_addressBytes it.1);
  Some (mempool_delta_object address it).

(** The integer member [name] of an emitted object. *)
Definition json_int (name : string) (o : UniValue) : Z :=
  match find_value o name with
  | VNUM (IntLit z) => z
  | _ => 0
  end.

Lemma utxo_render_height it o :
  utxo_render it = Some o -> json_int "height" o = uv_blockHeight it.2.
Proof.
  unfold utxo_render. destruct (getAddressFromIndex _ _); [|done].
  simpl. by intros [= <-].
Qed.

Lemma mempool_delta_render_time it o :
  mempool_delta_render it = Some o -> json_int "timestamp" o = time it.2.
Proof.
  unfold mempool_delta_render. destruct (getAddressFromIndex _ _); [|done].
  simpl. intros [= <-]. unfold mempool_delta_object.
  by destruct (amount it.2 <? 0).
Qed.

Lemma rendered_keys {X} (render : X -> option UniValue) (key : X -> Z)
    (name : string) (l : list X) (os : list UniValue) :
  (forall it o, render it = Some o -> json_int name o = key it) ->
  mapM render l = Some os ->
  json_int name <$> os = key <$> l.
Proof.
  intros Hkey Hmap. apply mapM_Some_1 in Hmap.
  induction Hmap as [|it o l os Hit _ IH]; [done|].
  rewrite !fmap_cons, IH. f_equal. by apply Hkey.
Qed.

Lemma push_utxo_render it acc :
  push_utxo it acc
  = match utxo_render it with
    | None => Throw unknown_address_type
    | Some o => Ok (acc ++ [o])
    end.
Proof.
  unfold push_utxo, utxo_render. by destruct (getAddressFromIndex _ _).
Qed.

Lemma push_mempool_delta_render it acc :
  push_mempool_delta it acc
  = match mempool_delta_render it with
    | None => Throw unknown_address_type
    | Some o => Ok (acc ++ [o])
    end.
Proof.
  unfold push_mempool_delta, mempool_delta_render.
  by destruct (getAddressFromIndex _ _).
Qed.

(** getaddressutxos on a request it serves: the rendering of the sorted
    list, wrapped with the tip when chainInfo is set. *)
Lemma getaddressutxos_returns (g : Globals) (request : JSONRPCRequest)
    (cm : ChainstateManager) (addresses : list (uint256 * Z))
    (collected : list (CAddressUnspentKey * CAddressUnspentValue))
    (includeChainInfo : bool) (utxos : list UniValue) :
  EnsureAnyChainman (context request) = Ok cm ->
  fAddressIndex g = true ->
  utxos_chainInfo (param (params request) 0) = Ok includeChainInfo ->
  getAddressesFromParams (params request) [] = Ok (true, addresses) ->
  for_each addresses (read_unspent g cm) [] = Ok collected ->
  mapM utxo_render (std_sort heightSort collected) = Some utxos ->
  getaddressutxos g request
  = if includeChainInfo then
      match Tip (ActiveChain cm) with
      | None => Throw null_dereference
      | Some tip =>
          Ok (VOBJ [("utxos", VARR utxos);
                    ("hash", VSTR (GetHex (GetBlockHash tip)));
                    ("height", VINT (Height (ActiveChain cm)))])
      end
    else Ok (VARR utxos).
Proof.
  intros Hcm Hflag Hinfo Haddr Hcollect Hutxos.
  assert (Hloop : for_each (std_sort heightSort collected) push_utxo []
                  = Ok utxos).
  { rewrite (for_each_render utxo_render unknown_address_type)
      by apply push_utxo_render.
    by rewrite Hutxos. }
  unfold getaddressutxos. rewrite Hcm. step_bind. rewrite Hflag. simpl negb.
  cbv iota. rewrite Hinfo. step_bind. rewrite Haddr. step_bind. simpl negb.
  cbv iota. rewrite Hcollect. step_bind. rewrite Hloop. step_bind.
  destruct includeChainInfo; [|done]. by destruct (Tip (ActiveChain cm)).
Qed.

(** C8. For every list of unspent outputs collected across the queried
    addresses (all of a known address type), getaddressutxos returns the
    rendering of [std::sort] of that list under heightSort: the emitted
    outputs are a rearrangement of the collected ones and their heights
    are in ascending order; the order is deterministic: every invocation
    that collects the same list returns the same array (outputs of equal
    height in the order [std::sort] leaves them). With chainInfo the same
    array is wrapped with the tip. *)
Theorem utxos_sorted_by_height (g : Globals) (request : JSONRPCRequest)
    (cm : ChainstateManager) (addresses : list (uint256 * Z))
    (collected : list (CAddressUnspentKey * CAddressUnspentValue))
    (includeChainInfo : bool) :
  EnsureAnyChainman (context request) = Ok cm ->
  fAddressIndex g = true ->
  utxos_chainInfo (param (params request) 0) = Ok includeChainInfo ->
  getAddressesFromParams (params request) [] = Ok (true, addresses) ->
  for_each addresses (read_unspent g cm) [] = Ok collected ->
  Forall (fun it => is_Some (utxo_render it)) collected ->
  let sorted := std_sort heightSort collected in
  exists utxos,
    mapM utxo_render sorted = Some utxos /\
    sorted ≡ₚ collected /\
    StronglySorted Z.le ((fun it => uv_blockHeight it.2) <$> sorted) /\
    StronglySorted Z.le (json_int "height" <$> utxos) /\
    (includeChainInfo = false ->
     getaddressutxos g request = Ok (VARR utxos)) /\
    (includeChainInfo = true ->
     forall tip, Tip (ActiveChain cm) = Some tip ->
       getaddressutxos g request
       = Ok (VOBJ [("utxos", VARR utxos);
                   ("hash", VSTR (GetHex (GetBlockHash tip)));
                   ("height", VINT (Height (ActiveChain cm)))])) /\
    (forall g' request' cm' addresses',
       EnsureAnyChainman (context request') = Ok cm' ->
       fAddressIndex g' = true ->
       utxos_chainInfo (param (params request') 0) = Ok false ->
       getAddressesFromParams (params request') [] = Ok (true, addresses') ->
       for_each addresses' (read_unspent g' cm') [] = Ok collected ->
       getaddressutxos g' request' = Ok (VARR utxos)).
Proof.
  intros Hcm Hflag Hinfo Haddr Hcollect Hknown sorted.
  assert (Hperm : sorted ≡ₚ collected)
    by apply std_sort_perm, heightSort_swo.
  assert (Hsorted : StronglySorted Z.le ((fun it => uv_blockHeight it.2) <$> sorted))
    by apply (std_sort_keys (fun it => uv_blockHeight it.2)).
  rewrite <- Hperm in Hknown.
  destruct (mapM_is_Some_2 utxo_render sorted Hknown) as [utxos Hutxos].
  exists utxos. do 3 (split; [done|]). split.
  { rewrite (rendered_keys utxo_render (fun it => uv_blockHeight it.2)
      "height" sorted utxos); [done| |done].
    intros it o. apply utxo_render_height. }
  pose proof (getaddressutxos_returns g request cm addresses collected
                includeChainInfo utxos Hcm Hflag Hinfo Haddr Hcollect Hutxos)
    as Hres.
  split; [|split].
  - intros Hfalse. by rewrite Hfalse in Hres.
  - intros Htrue tip Htip. by rewrite Htrue, Htip in Hres.
  - intros g' request' cm' addresses' Hcm' Hflag' Hinfo' Haddr' Hcollect'.
    by rewrite (getaddressutxos_returns g' request' cm' addresses' collected
                  false utxos Hcm' Hflag' Hinfo' Haddr' Hcollect' Hutxos).
Qed.

(** The previous-output members of an emitted mempool delta. *)
Definition prev_fields (o : UniValue) : UniValue * UniValue :=
  (find_value o "prevtxid", find_value o "prevout").

(** C9. For every list of mempool deltas the mempool returns (all of a
    known address type), getaddressmempool emits the rendering of
    [std::sort] of the list under timestampSort: a rearrangement of the
    deltas with the times in ascending order; and an emitted entry has the
    members prevtxid and prevout, holding the delta's previous output, iff
    the delta's amount is negative, and has neither otherwise. *)
Theorem mempool_deltas_sorted (g : Globals) (request : JSONRPCRequest)
    (node : NodeContext) (pool : CTxMemPool)
    (addresses : list (uint256 * Z))
    (indexes : list (CMempoolAddressDeltaKey * CMempoolAddressDelta)) :
  context request = Some node ->
  mempool node = Some pool ->
  fAddressIndex g = true ->
  getAddressesFromParams (params request) [] = Ok (true, addresses) ->
  getAddressIndex pool addresses = Some indexes ->
  Forall (fun it => is_Some (mempool_delta_render it)) indexes ->
  let sorted := std_sort timestampSort indexes in
  exists result,
    getaddressmempool g request = Ok (VARR result) /\
    mapM mempool_delta_render sorted = Some result /\
    sorted ≡ₚ indexes /\
    StronglySorted Z.le ((fun it => time it.2) <$> sorted) /\
    StronglySorted Z.le (json_int "timestamp" <$> result) /\
    Forall2 (fun it o =>
      (amount it.2 < 0 ->
       prev_fields o = (VSTR (GetHex (prevhash it.2)),
                        VINT (int32 (prevout it.2)))) /\
      (~ amount it.2 < 0 -> prev_fields o = (VNULL, VNULL))) sorted result.
Proof.
  intros Hctx Hpool Hflag Haddr Hidx Hknown sorted.
  assert (Hperm : sorted ≡ₚ indexes)
    by apply std_sort_perm, timestampSort_swo.
  assert (Hsorted : StronglySorted Z.le ((fun it => time it.2) <$> sorted))
    by apply (std_sort_keys (fun it => time it.2)).
  rewrite <- Hperm in Hknown.
  destruct (mapM_is_Some_2 mempool_delta_render sorted Hknown)
    as [result Hresult].
  exists result. split.
  { unfold getaddressmempool, EnsureAnyNodeContext, EnsureMemPool.
    rewrite Hctx. step_bind. rewrite Hpool. step_bind. rewrite Hflag.
    simpl negb. cbv iota. rewrite Haddr. step_bind. simpl negb. cbv iota.
    rewrite Hidx. fold sorted.
    rewrite (for_each_render mempool_delta_render unknown_address_type)
      by apply push_mempool_delta_render.
    by rewrite Hresult. }
  do 3 (split; [done|]). split.
  { rewrite (rendered_keys mempool_delta_render (fun it => time it.2)
      "timestamp" sorted result); [done| |done].
    intros it o. apply mempool_delta_render_time. }
  apply mapM_Some_1 in Hresult.
  eapply Forall2_impl; [exact Hresult|].
  intros it o. unfold mempool_delta_render.
  destruct (getAddressFromIndex _ _) as [address|]; [|done].
  simpl. intros [= <-]. unfold mempool_delta_object, prev_fields.
  destruct (amount it.2 <? 0) eqn:Hneg; simpl.
  - apply Z.ltb_lt in Hneg. done.
  - apply Z.ltb_ge in Hneg. split; [lia|done].
Qed.

End Sorted.

(** ** The order of [std::pair<int, std::string>] *)

Lemma ascii_compare_lt_trans a b c :
  Ascii.compare a b = Lt -> Ascii.compare b c = Lt -> Ascii.compare a c = Lt.
Proof.
  unfold Ascii.compare. rewrite !N.compare_lt_iff. apply N.lt_trans.
Qed.

Lemma string_compare_refl s : String.compare s s = Eq.
Proof.
  pose proof (String.compare_antisym s s) as H.
  destruct (String.compare s s); simpl in H; congruence.
Qed.

Lemma string_compare_lt_trans s1 s2 s3 :
  String.compare s1 s2 = Lt -> String.compare s2 s3 = Lt ->
  String.compare s1 s3 = Lt.
Proof.
  revert s2 s3. induction s1 as [|c1 s1 IH]; intros [|c2 s2] [|c3 s3];
    simpl; try done.
  destruct (Ascii.compare c1 c2) eqn:H12; try done;
    destruct (Ascii.compare c2 c3) eqn:H23; try done; intros Ha Hb.
  - apply Ascii.compare_eq_iff in H12, H23. subst.
    assert (Ascii.compare c3 c3 = Eq) as ->.
    { unfold Ascii.compare. apply N.compare_refl. }
    by eapply IH.
  - apply Ascii.compare_eq_iff in H12. subst. by rewrite H23.
  - apply Ascii.compare_eq_iff in H23. subst. by rewrite H12.
  - by rewrite (ascii_compare_lt_trans _ _ _ H12 H23).
Qed.

Lemma string_ltb_irrefl s : String.ltb s s = false.
Proof. unfold String.ltb. by rewrite string_compare_refl. Qed.

Lemma string_ltb_trans s1 s2 s3 :
  String.ltb s1 s2 = true -> String.ltb s2 s3 = true -> String.ltb s1 s3 = true.
Proof.
  unfold String.ltb. intros H12 H23.
  destruct (String.compare s1 s2) eqn:E12; try done.
  destruct (String.compare s2 s3) eqn:E23; try done.
  by rewrite (string_compare_lt_trans _ _ _ E12 E23).
Qed.

Lemma string_ltb_total s1 s2 :
  String.ltb s1 s2 = false -> String.ltb s2 s1 = false -> s1 = s2.
Proof.
  unfold String.ltb. rewrite (String.compare_antisym s2 s1).
  destruct (String.compare s1 s2) eqn:E; simpl; try done.
  intros _ _. by apply String.compare_eq_iff.
Qed.

(** Ascending (height, txid) order, as the specification words it. *)
Definition height_txid_lt (a b : Z * string) : Prop :=
  a.1 < b.1 \/ (a.1 = b.1 /\ String.ltb a.2 b.2 = true).

Lemma pair_lt_spec a b : pair_lt a b = true <-> height_txid_lt a b.
Proof.
  unfold pair_lt, height_txid_lt.
  rewrite orb_true_iff, andb_true_iff, negb_true_iff, Z.ltb_lt, Z.ltb_ge.
  split.
  - intros [?|[? ?]]; [by left|].
    destruct (decide (a.1 < b.1)); [by left|]. right. split; [lia|done].
  - intros [?|[? ?]]; [by left|]. right. split; [lia|done].
Qed.

Lemma height_txid_lt_irrefl a : ~ height_txid_lt a a.
Proof.
  unfold height_txid_lt. rewrite string_ltb_irrefl. intros [?|[_ ?]]; [lia|done].
Qed.

Lemma height_txid_lt_trans a b c :
  height_txid_lt a b -> height_txid_lt b c -> height_txid_lt a c.
Proof.
  unfold height_txid_lt. intros [?|[? Hab]] [?|[? Hbc]]; try (left; lia).
  right. split; [lia|]. by eapply string_ltb_trans.
Qed.

Lemma height_txid_lt_total a b :
  ~ height_txid_lt a b -> ~ height_txid_lt b a -> a = b.
Proof.
  unfold height_txid_lt. destruct a as [h1 s1], b as [h2 s2]. simpl.
  intros Hab Hba.
  assert (h1 = h2) as -> by lia. f_equal.
  apply string_ltb_total.
  - destruct (String.ltb s1 s2); [|done]. exfalso. apply Hab. by right.
  - destruct (String.ltb s2 s1); [|done]. exfalso. apply Hba. by right.
Qed.

(** ** The set of getaddresstxids *)

Lemma set_insert_elem x s k :
  k ∈ (set_insert x s).1 <-> k = x \/ k ∈ s.
Proof.
  induction s as [|y s IH]; simpl.
  - rewrite list_elem_of_singleton, elem_of_nil. tauto.
  - destruct (pair_lt x y) eqn:Hxy; simpl.
    { rewrite !elem_of_cons. tauto. }
    destruct (pair_lt y x) eqn:Hyx.
    + destruct (set_insert x s) as [s' fresh]. simpl in *.
      rewrite !elem_of_cons, IH. tauto.
    + simpl. assert (x = y) as ->.
      { apply height_txid_lt_total; rewrite <- pair_lt_spec; congruence. }
      rewrite !elem_of_cons. tauto.
Qed.

Lemma set_insert_sorted x s :
  StronglySorted height_txid_lt s ->
  StronglySorted height_txid_lt (set_insert x s).1.
Proof.
  induction s as [|y s IH]; simpl; intros Hs.
  - repeat constructor.
  - apply StronglySorted_cons in Hs as [Hy Hs].
    destruct (pair_lt x y) eqn:Hxy; simpl.
    { apply pair_lt_spec in Hxy. apply StronglySorted_cons. split.
      - constructor; [done|]. eapply Forall_impl; [exact Hy|].
        intros z Hz. by eapply height_txid_lt_trans.
      - by apply StronglySorted_cons. }
    destruct (pair_lt y x) eqn:Hyx.
    + pose proof (set_insert_elem x s) as Helem.
      destruct (set_insert x s) as [s' fresh]. simpl in *.
      apply StronglySorted_cons. split; [|by apply IH].
      rewrite Forall_forall in Hy |- *. intros k Hk.
      apply Helem in Hk as [->|Hk]; [by apply pair_lt_spec|by apply Hy].
    + simpl. by apply StronglySorted_cons.
Qed.

(** [insert(x).second]: true exactly when the element was not in the set. *)
Lemma set_insert_fresh x s :
  StronglySorted height_txid_lt s ->
  (set_insert x s).2 = bool_decide (x ∉ s).
Proof.
  induction s as [|y s IH]; cbn [set_insert]; intros Hs.
  - symmetry. apply bool_decide_eq_true_2. apply not_elem_of_nil.
  - apply StronglySorted_cons in Hs as [Hy Hs].
    destruct (pair_lt x y) eqn:Hxy; cbn [snd].
    { symmetry. apply bool_decide_eq_true_2. apply pair_lt_spec in Hxy.
      rewrite Forall_forall in Hy. intros [->|Hin]%elem_of_cons.
      - by apply height_txid_lt_irrefl in Hxy.
      - apply (height_txid_lt_irrefl x).
        eapply height_txid_lt_trans; [exact Hxy|by apply Hy]. }
    destruct (pair_lt y x) eqn:Hyx.
    + specialize (IH Hs). destruct (set_insert x s) as [s' fresh].
      cbn [snd] in *. rewrite IH. apply bool_decide_ext.
      rewrite not_elem_of_cons. split; [|tauto]. intros Hx. split; [|done].
      intros ->. apply pair_lt_spec in Hyx.
      by apply height_txid_lt_irrefl in Hyx.
    + cbn [snd]. symmetry. apply bool_decide_eq_false_2. intros Hx. apply Hx.
      assert (x = y) as ->; [|by left].
      apply height_txid_lt_total; rewrite <- pair_lt_spec; congruence.
Qed.

Lemma sorted_NoDup (s : list (Z * string)) :
  StronglySorted height_txid_lt s -> NoDup s.
Proof.
  induction 1 as [|x s Hs IH Hx]; constructor; [|done].
  intros Hin. rewrite Forall_forall in Hx.
  by apply (height_txid_lt_irrefl x), Hx.
Qed.

(** ** getaddresstxids *)

(** The wording of the specification for one address: the scan order is
    kept and a key that was seen before is dropped where it recurs. *)
Fixpoint keep_first_from (seen l : list (Z * string)) : list (Z * string) :=
  match l with
  | [] => []
  | k :: rest =>
      if bool_decide (k ∈ seen) then keep_first_from seen rest
      else k :: keep_first_from (k :: seen) rest
  end.

Definition keep_first (l : list (Z * string)) : list (Z * string) :=
  keep_first_from [] l.

Lemma keep_first_from_equiv seen1 seen2 l :
  (forall k, k ∈ seen1 <-> k ∈ seen2) ->
  keep_first_from seen1 l = keep_first_from seen2 l.
Proof.
  revert seen1 seen2. induction l as [|k l IH]; intros seen1 seen2 Heq; [done|].
  simpl. rewrite (bool_decide_ext _ _ (Heq k)).
  destruct (bool_decide (k ∈ seen2)); [by apply IH|].
  f_equal. apply IH. intros k'. rewrite !elem_of_cons, Heq. done.
Qed.

Lemma keep_first_from_elem seen l k :
  k ∈ keep_first_from seen l <-> k ∈ l /\ k ∉ seen.
Proof.
  revert seen. induction l as [|x l IH]; intros seen; simpl.
  - rewrite elem_of_nil. tauto.
  - destruct (bool_decide (x ∈ seen)) eqn:Hx.
    + apply bool_decide_eq_true in Hx. rewrite IH, elem_of_cons.
      split; [tauto|]. intros [[->|?] ?]; tauto.
    + apply bool_decide_eq_false in Hx.
      rewrite !elem_of_cons, IH, not_elem_of_cons.
      destruct (decide (k = x)) as [->|]; tauto.
Qed.

Lemma keep_first_from_NoDup seen l : NoDup (keep_first_from seen l).
Proof.
  revert seen. induction l as [|x l IH]; intros seen; simpl; [constructor|].
  destruct (bool_decide (x ∈ seen)); [done|].
  constructor; [|done]. rewrite keep_first_from_elem, not_elem_of_cons. tauto.
Qed.

Lemma keep_first_from_sublist seen l : keep_first_from seen l `sublist_of` l.
Proof.
  revert seen. induction l as [|x l IH]; intros seen; simpl; [done|].
  destruct (bool_decide (x ∈ seen)).
  - by apply sublist_cons.
  - by apply sublist_skip.
Qed.

Section TxIds.
Context {E : Externals}.

(** The (height, txid) pair the loop inserts for a scanned entry. *)
Definition scan_key (it : CAddressIndexKey * CAmount) : Z * string :=
  (blockHeight it.1, GetHex (txhash it.1)).

Definition emit (k : Z * string) : UniValue := VSTR k.2.

(** One address: the loop appends the first occurrence of every key. *)
Lemma txids_single idx s result :
  StronglySorted height_txid_lt s ->
  (fold_left (txids_step false) idx (s, result)).2
  = result ++ (emit <$> keep_first_from s (scan_key <$> idx)).
Proof.
  revert s result. induction idx as [|it idx IH]; intros s result Hs.
  - simpl. by rewrite app_nil_r.
  - cbn [fold_left fmap list_fmap keep_first_from].
    unfold txids_step at 2. fold (scan_key it).
    pose proof (set_insert_fresh (scan_key it) s Hs) as Hfresh.
    pose proof (set_insert_sorted (scan_key it) s Hs) as Hsorted.
    pose proof (set_insert_elem (scan_key it) s) as Helem.
    destruct (set_insert (scan_key it) s) as [s' fresh]. cbn [fst snd] in *.
    subst fresh. destruct (decide (scan_key it ∈ s)) as [Hin|Hin].
    + rewrite (bool_decide_eq_false_2 (scan_key it ∉ s)) by tauto.
      rewrite (bool_decide_eq_true_2 (scan_key it ∈ s)) by done.
      rewrite IH by done. f_equal. f_equal. apply keep_first_from_equiv.
      intros k. rewrite Helem. split; [|tauto]. intros [->|?]; done.
    + rewrite (bool_decide_eq_true_2 (scan_key it ∉ s)) by done.
      rewrite (bool_decide_eq_false_2 (scan_key it ∈ s)) by done.
      rewrite IH by done. rewrite <- app_assoc. f_equal.
      cbn [fmap list_fmap app]. f_equal. f_equal.
      apply keep_first_from_equiv. intros k. by rewrite Helem, elem_of_cons.
Qed.

(** Several addresses: the loop only fills the set. *)
Lemma txids_multi idx s result :
  StronglySorted height_txid_lt s ->
  exists s',
    fold_left (txids_step true) idx (s, result) = (s', result) /\
    StronglySorted height_txid_lt s' /\
    (forall k, k ∈ s' <-> k ∈ s \/ k ∈ scan_key <$> idx).
Proof.
  revert s. induction idx as [|it idx IH]; intros s Hs.
  - exists s. simpl. split; [done|]. split; [done|].
    intros k. rewrite elem_of_nil. tauto.
  - cbn [fold_left]. unfold txids_step at 2. fold (scan_key it).
    destruct (IH _ (set_insert_sorted (scan_key it) s Hs))
      as (s' & Hfold & Hsorted & Helem).
    exists s'. split; [done|]. split; [done|].
    intros k. rewrite Helem, set_insert_elem, fmap_cons, elem_of_cons. tauto.
Qed.

(** C6. getaddresstxids emits each (height, txid) pair of the scan once:
    every scanned txid is listed, and it is listed exactly once as long as
    a transaction sits at one height in the scan (which is the case when
    several queried addresses are touched by the same transaction). With
    at most one queried address the output keeps the scan order, each pair
    at its first occurrence; with more than one it is in the ascending
    (height, txid) order of the set. *)
Theorem txids_deduplicated (addresses : list (uint256 * Z))
    (addressIndex : list (CAddressIndexKey * CAmount)) :
  let keys := scan_key <$> addressIndex in
  let out := txids_output addresses addressIndex in
  (exists emitted : list (Z * string),
     out = emit <$> emitted /\
     NoDup emitted /\
     (forall k, k ∈ emitted <-> k ∈ keys) /\
     ((length addresses <= 1)%nat ->
        emitted = keep_first keys /\ emitted `sublist_of` keys) /\
     ((1 < length addresses)%nat ->
        StronglySorted height_txid_lt emitted)) /\
  (forall txid, VSTR txid ∈ out <-> txid ∈ keys.*2) /\
  ((forall k1 k2, k1 ∈ keys -> k2 ∈ keys -> k1.2 = k2.2 -> k1.1 = k2.1) ->
   NoDup out).
Proof.
  intros keys out.
  assert (Hemitted : exists emitted : list (Z * string),
     out = emit <$> emitted /\
     NoDup emitted /\
     (forall k, k ∈ emitted <-> k ∈ keys) /\
     ((length addresses <= 1)%nat ->
        emitted = keep_first keys /\ emitted `sublist_of` keys) /\
     ((1 < length addresses)%nat ->
        StronglySorted height_txid_lt emitted)).
  { subst out. unfold txids_output.
    destruct (1 <? length addresses)%nat eqn:Hmulti.
    - apply Nat.ltb_lt in Hmulti.
      destruct (txids_multi addressIndex [] [])
        as (s' & Hfold & Hsorted & Helem); [constructor|].
      rewrite Hfold. exists s'. split; [done|].
      split; [by apply sorted_NoDup|]. split.
      { intros k. rewrite Helem, elem_of_nil. tauto. }
      split; [lia|done].
    - apply Nat.ltb_ge in Hmulti.
      pose proof (txids_single addressIndex [] []) as Hsingle.
      destruct (fold_left (txids_step false) addressIndex ([], []))
        as [txids result]. cbn [snd] in Hsingle.
      rewrite Hsingle by constructor. simpl app.
      exists (keep_first keys). split; [done|].
      split; [apply keep_first_from_NoDup|]. split.
      { intros k. unfold keep_first. rewrite keep_first_from_elem, elem_of_nil.
        tauto. }
      split; [|lia]. intros _. split; [done|apply keep_first_from_sublist]. }
  split; [exact Hemitted|].
  destruct Hemitted as (emitted & -> & Hnodup & Helem & _). split.
  - intros txid. rewrite !list_elem_of_fmap. split.
    + intros (k & [= ->] & Hk). exists k. by rewrite <- Helem.
    + intros (k & -> & Hk). exists k. by rewrite Helem.
  - intros Hheight. apply NoDup_fmap_2_strong; [|done].
    intros [h1 t1] [h2 t2] H1 H2 [= Ht]. simpl in Ht. subst t2.
    f_equal. apply (Hheight (h1, t1) (h2, t1)); [by apply Helem..|done].
Qed.

End TxIds.

(** ** Disabled index families *)

Section Disabled.
Context {E : Externals} {SORT : StdSort}.

Definition no_block_hashes : Exception :=
  JSONRPCError RPC_INVALID_ADDRESS_OR_KEY
    "No information available for block hashes".

Definition invalid_txid_or_index : Exception :=
  JSONRPCError RPC_INVALID_ADDRESS_OR_KEY "Invalid txid or index".

(** The errors the query layer throws when a lookup finds nothing. *)
Definition lookup_miss (e : Exception) : Prop :=
  e = no_information \/ e = unable_spent_info \/ e = no_block_hashes.

(** The errors it throws for a request it does not accept. *)
Definition validation_error (e : Exception) : Prop :=
  e = invalid_address \/ e = invalid_txid_or_index \/
  e = JSONRPCError RPC_INVALID_ADDRESS_OR_KEY "Addresses is expected to be an array" \/
  e = unknown_address_type.

(** The wording of the specification: the query fails with a "not
    enabled" configuration error, which is neither a lookup miss nor a
    validation error. *)
Definition fails_not_enabled (r : Result UniValue) : Prop :=
  exists e, r = Throw e /\ ~ lookup_miss e /\ ~ validation_error e.

Lemma index_not_enabled_distinguished :
  ~ lookup_miss index_not_enabled /\ ~ validation_error index_not_enabled.
Proof.
  unfold lookup_miss, validation_error, index_not_enabled, no_information,
    unable_spent_info, no_block_hashes, invalid_address,
    invalid_txid_or_index, unknown_address_type.
  split; intros H; repeat destruct H as [H|H]; discriminate H.
Qed.

(** C2, as the code has it. With the address index disabled,
    getaddressdeltas and getaddresstxids fail at once with the fixed error
    "Address index is not enabled." (RPC_MISC_ERROR), and so do
    getaddressutxos once the chain manager is found and getaddressmempool
    once the node context and the mempool are found; that error is neither
    a lookup-miss nor a validation error. With the spent index disabled,
    getspentinfo has no such error: a well-formed request fails with
    "Unable to get spent info", the error of a lookup miss. *)
Theorem disabled_index_errors (g : Globals) (request : JSONRPCRequest) :
  (fAddressIndex g = false ->
   getaddressdeltas g request = Throw index_not_enabled /\
   getaddresstxids g request = Throw index_not_enabled /\
   (forall cm, EnsureAnyChainman (context request) = Ok cm ->
      getaddressutxos g request = Throw index_not_enabled) /\
   (forall node pool,
      context request = Some node -> mempool node = Some pool ->
      getaddressmempool g request = Throw index_not_enabled)) /\
  fails_not_enabled (Throw index_not_enabled) /\
  (fSpentIndex g = false ->
   forall pool cm txid i,
     spentinfo_request request pool cm txid i ->
     getspentinfo g request = Throw unable_spent_info /\
     lookup_miss unable_spent_info).
Proof.
  split; [|split].
  - intros Hflag. split; [|split; [|split]].
    + unfold getaddressdeltas. by rewrite Hflag.
    + unfold getaddresstxids. by rewrite Hflag.
    + intros cm Hcm. unfold getaddressutxos. rewrite Hcm. step_bind.
      by rewrite Hflag.
    + intros node pool Hctx Hpool.
      unfold getaddressmempool, EnsureAnyNodeContext, EnsureMemPool.
      rewrite Hctx. step_bind. rewrite Hpool. step_bind. by rewrite Hflag.
  - exists index_not_enabled. split; [done|].
    apply index_not_enabled_distinguished.
  - intros Hflag pool cm txid i Hreq.
    rewrite (getspentinfo_lookup g request pool cm txid i Hreq).
    unfold GetSpentIndex. rewrite Hflag. simpl. split; [done|].
    unfold lookup_miss. tauto.
Qed.

(** The balance handlers have no guard of their own: the flag is read by
    GetAddressIndex, once per address. *)
Lemma balance_disabled_index (g : Globals) (request : JSONRPCRequest)
    (cm : ChainstateManager) (addresses : list (uint256 * Z)) :
  fAddressIndex g = false ->
  getAddressesFromParams (params request) [] = Ok (true, addresses) ->
  EnsureAnyChainman (context request) = Ok cm ->
  getaddressbalance g request
  = match addresses with
    | [] => Ok (balance_result (mkTotals 0 0 0 0))
    | _ :: _ => Throw no_information
    end.
Proof.
  intros Hflag Haddr Hcm. unfold getaddressbalance.
  rewrite Haddr. step_bind. simpl negb. cbv iota. rewrite Hcm. step_bind.
  destruct addresses as [|it rest]; [done|].
  cbn [for_each]. unfold GetAddressIndex. rewrite Hflag. simpl negb.
  cbv iota. by step_bind.
Qed.

End Disabled.

(** ** The height range of getaddressdeltas *)

Section Range.
Context {E : Externals} {SORT : StdSort}.

Definition range_not_positive : Exception :=
  JSONRPCError RPC_INVALID_ADDRESS_OR_KEY
    "Start and end is expected to be greater than zero".

Definition range_end_before_start : Exception :=
  JSONRPCError RPC_INVALID_ADDRESS_OR_KEY
    "End value is expected to be greater than start".

Definition invalid_range_error (e : Exception) : Prop :=
  e = range_not_positive \/ e = range_end_before_start.

(** The wording of the specification: the two heights are required
    together, both are positive and end is not below start. *)
Definition range_violation (startValue endValue : UniValue) : Prop :=
  (isNum startValue = true /\ endValue = VNULL) \/
  (startValue = VNULL /\ isNum endValue = true) \/
  (exists s e, startValue = VINT s /\ endValue = VINT e /\
               (s <= 0 \/ e <= 0 \/ e < s)).

(** The claim of the specification for one request. *)
Definition range_claim (g : Globals) (request : JSONRPCRequest) : Prop :=
  forall kvs,
    param (params request) 0 = VOBJ kvs ->
    range_violation (find_key kvs "start") (find_key kvs "end") ->
    exists e, getaddressdeltas g request = Throw e /\ invalid_range_error e.

(** The value of the optional member [chainInfo]. *)
Definition chainInfo_flag (kvs : list (string * UniValue)) : bool :=
  match find_key kvs "chainInfo" with
  | VBOOL b => b
  | _ => false
  end.

Lemma read_chainInfo_flag kvs :
  read_chainInfo (VOBJ kvs) = Ok (chainInfo_flag kvs).
Proof.
  unfold read_chainInfo, chainInfo_flag. simpl.
  by destruct (find_key kvs "chainInfo").
Qed.

Lemma getaddressdeltas_range g request cm kvs :
  fAddressIndex g = true ->
  EnsureAnyChainman (context request) = Ok cm ->
  param (params request) 0 = VOBJ kvs ->
  getaddressdeltas g request
  = '(start, end_) ← deltas_range (find_key kvs "start") (find_key kvs "end");
    deltas_body g cm (params request) (chainInfo_flag kvs) start end_.
Proof.
  intros Hflag Hcm Hobj. unfold getaddressdeltas.
  rewrite Hflag. simpl negb. cbv iota. rewrite Hcm. step_bind.
  rewrite Hobj. simpl get_obj. step_bind. rewrite read_chainInfo_flag.
  by step_bind.
Qed.

(** C3, as the code has it. When both start and end are given as
    integers, a value that is not positive, or an end below start, makes
    getaddressdeltas fail with an invalid-range error whatever the index
    holds, and a valid pair bounds the scan. When only one of the two is a
    number (or neither), no error is raised: the range is ignored and the
    query runs as the unbounded one, with start = end = 0. *)
Theorem deltas_range_checked (g : Globals) (request : JSONRPCRequest)
    (cm : ChainstateManager) (kvs : list (string * UniValue)) :
  fAddressIndex g = true ->
  EnsureAnyChainman (context request) = Ok cm ->
  param (params request) 0 = VOBJ kvs ->
  let startValue := find_key kvs "start" in
  let endValue := find_key kvs "end" in
  (forall s e,
     startValue = VINT s -> endValue = VINT e -> in_int s -> in_int e ->
     (s <= 0 \/ e <= 0 ->
      getaddressdeltas g request = Throw range_not_positive) /\
     (0 < s -> 0 < e -> e < s ->
      getaddressdeltas g request = Throw range_end_before_start) /\
     (0 < s -> s <= e ->
      getaddressdeltas g request
      = deltas_body g cm (params request) (chainInfo_flag kvs) s e)) /\
  (isNum startValue && isNum endValue = false ->
   getaddressdeltas g request
   = deltas_body g cm (params request) (chainInfo_flag kvs) 0 0).
Proof.
  intros Hflag Hcm Hobj startValue endValue.
  rewrite (getaddressdeltas_range g request cm kvs Hflag Hcm Hobj).
  fold startValue endValue. split.
  - intros s e -> -> Hs He. unfold deltas_range. simpl isNum. simpl andb.
    cbv iota. rewrite !getInt_VINT by done. step_bind.
    repeat split.
    + intros Hneg.
      assert ((s <=? 0) || (e <=? 0) = true) as ->; [|done].
      apply orb_true_iff. rewrite !Z.leb_le. done.
    + intros H1 H2 H3.
      assert ((s <=? 0) || (e <=? 0) = false) as ->.
      { apply orb_false_iff. rewrite !Z.leb_gt. done. }
      assert ((e <? s) = true) as -> by (by apply Z.ltb_lt). done.
    + intros H1 H2.
      assert ((s <=? 0) || (e <=? 0) = false) as ->.
      { apply orb_false_iff. rewrite !Z.leb_gt. lia. }
      assert ((e <? s) = false) as -> by (by apply Z.ltb_ge). done.
  - intros Hnum. unfold deltas_range. rewrite Hnum. by step_bind.
Qed.

End Range.

(** * A sample node

    A small chain state, index and mempool on which the statements above
    are evaluated. *)

Module Sample.

Definition txid_string (h : Z) : string :=
  "tx" +:+ String (Ascii.ascii_of_N (48 + Z.to_N (h mod 10))) "".

#[export] Instance externals : Externals := {|
  ADDR_INDT_UNKNOWN := 0;
  ADDR_INDT_PUBKEY_ADDRESS := 1;
  ADDR_INDT_SCRIPT_ADDRESS := 2;
  ADDR_INDT_WITNESS_V0_KEYHASH := 3;
  ADDR_INDT_WITNESS_V0_SCRIPTHASH := 4;
  ADDR_INDT_WITNESS_V1_TAPROOT := 5;
  DecodeDestination := fun str =>
    if String.eqb str "addrA" then PKHash 1
    else if String.eqb str "addrB" then PKHash 2
    else CNoDestination;
  EncodeDestination := fun dest =>
    match dest with
    | PKHash 1 => "addrA"
    | PKHash 2 => "addrB"
    | _ => "other"
    end;
  GetHex := txid_string;
  HexStr := fun _ => "76a9";
  ParseHashV := fun v name =>
    match v with
    | VSTR "tx7" => Ok 7
    | VSTR "tx8" => Ok 8
    | _ => Throw (JSONRPCError RPC_INVALID_PARAMETER name)
    end;
  COINBASE_MATURITY := 100
|}.

Definition key (addr height pos tx out : Z) (spend : bool) : CAddressIndexKey :=
  mkAddressIndexKey 1 addr height pos tx out spend.

(** Address A: a coinbase output of 50 at height 100, two outputs of
    transaction 8 at height 120, a spend at height 130. Address B: one
    output of transaction 8. *)
Definition indexA : list (CAddressIndexKey * Z) :=
  [(key 1 100 0 7 0 false, 50); (key 1 120 3 8 1 false, 30);
   (key 1 120 3 8 2 false, 5); (key 1 130 2 9 0 true, -30)].

Definition indexB : list (CAddressIndexKey * Z) :=
  [(key 2 120 3 8 0 false, 20)].

Definition in_range (start end_ : Z) (it : CAddressIndexKey * Z) : bool :=
  if (start >? 0) && (end_ >? 0) then
    (start <=? blockHeight it.1) && (blockHeight it.1 <=? end_)
  else true.

Definition unspentA : list (CAddressUnspentKey * CAddressUnspentValue) :=
  [(mkAddressUnspentKey 1 1 8 2, mkAddressUnspentValue 5 [118; 169] 120);
   (mkAddressUnspentKey 1 1 7 0, mkAddressUnspentValue 50 [118; 169] 100)].

Definition db : CBlockTreeDB := {|
  ReadAddressIndex := fun addr ty start end_ =>
    if (addr =? 1) && (ty =? 1) then Some (List.filter (in_range start end_) indexA)
    else if (addr =? 2) && (ty =? 1) then Some (List.filter (in_range start end_) indexB)
    else Some [];
  ReadAddressUnspentIndex := fun addr ty =>
    if (addr =? 1) && (ty =? 1) then Some unspentA else Some [];
  ReadSpentIndex := fun k =>
    if (sk_txid k =? 8) && (sk_outputIndex k =? 1)
    then Some (mkSpentIndexValue 9 0 130 30 1 1) else None;
  ReadTimestampIndex := fun high low => Some [(1100, 10); (5000, 11); (1101, 12)]
|}.

(** Blocks 0..200 with hash 1000 + height are the active chain; hash 5000
    is a block of an abandoned branch. *)
Definition chain : CChain := {|
  Height := 200;
  chain_at := fun h =>
    if (0 <=? h) && (h <=? 200) then Some (mkBlockIndex h (1000 + h)) else None;
  Tip := Some (mkBlockIndex 200 1200);
  Contains := fun p =>
    match p with
    | Some b => (0 <=? nHeight b) && (nHeight b <=? 200)
                && (GetBlockHash b =? 1000 + nHeight b)
    | None => false
    end
|}.

Definition cm : ChainstateManager := {|
  m_block_tree_db := db;
  ActiveChain := chain;
  LookupBlockIndex := fun hash =>
    if (1000 <=? hash) && (hash <=? 1200) then Some (mkBlockIndex (hash - 1000) hash)
    else if hash =? 5000 then Some (mkBlockIndex 150 5000)
    else None
|}.

Definition pool : CTxMemPool := {|
  getSpentIndex := fun k =>
    if (sk_txid k =? 7) && (sk_outputIndex k =? 0)
    then Some (mkSpentIndexValue 6 1 (-1) 50 1 1) else None;
  getAddressIndex := fun addresses =>
    Some [(mkMempoolAddressDeltaKey 1 1 6 1, mkMempoolAddressDelta 2000 (-50) 7 0);
          (mkMempoolAddressDeltaKey 1 1 5 0, mkMempoolAddressDelta 1000 40 0 0)]
|}.

Definition node : NodeContext := {| chainman := Some cm; mempool := Some pool |}.

Definition enabled : Globals := mkGlobals true true true.
Definition disabled : Globals := mkGlobals false false false.

Definition request (p0 : UniValue) : JSONRPCRequest :=
  {| params := [p0]; context := Some node |}.

Definition addresses (l : list string) : string * UniValue :=
  ("addresses", VARR (VSTR <$> l)).

End Sample.

(** * The statements on the sample node *)

Section OnSample.
Import Sample.
#[local] Existing Instance insertion_StdSort.

Lemma balance_additivity_witness :
  no_overflow indexA /\
  let t := balance_loop 200 indexA in
  let ds := deltas indexA in
  balance t = balance_immature t + balance_spendable t /\
  balance t = received t + sumZ (filter (fun d => d < 0) ds) /\
  received t = sumZ (filter (fun d => 0 < d) ds) /\
  balance t = sumZ ds.
Proof.
  assert (Hno : no_overflow indexA) by (vm_compute; discriminate).
  split; [exact Hno|].
  exact (proj2 (balance_additivity 200 indexA) Hno).
Defined.

Lemma balance_buckets_witness :
  -1 <= 100 <= INT_MAX /\
  Forall (fun it : CAddressIndexKey * Z => 0 <= blockHeight it.1 <= INT_MAX)
    [(key 1 100 0 7 0 false, 50)] /\
  balance_loop (int32 (uint32 100)) [(key 1 100 0 7 0 false, 50)]
  = mkTotals 50 0 50 50 /\
  balance_loop (int32 (uint32 200)) [(key 1 100 0 7 0 false, 50)]
  = mkTotals 50 50 0 50.
Proof.
  assert (H1 : -1 <= 100 <= INT_MAX) by (unfold INT_MAX; lia).
  assert (H2 : Forall
    (fun it : CAddressIndexKey * Z => 0 <= blockHeight it.1 <= INT_MAX)
    [(key 1 100 0 7 0 false, 50)]).
  { repeat constructor; unfold INT_MAX; simpl; lia. }
  split; [exact H1|]. split; [exact H2|].
  exact (proj2 (proj2 (balance_buckets 100 _ H1 H2)) eq_refl
           (key 1 100 0 7 0 false) eq_refl eq_refl).
Defined.

Definition spent_request : JSONRPCRequest :=
  request (VOBJ [("txid", VSTR "tx7"); ("index", VINT 0)]).

Lemma spent_request_ok : spentinfo_request spent_request pool cm 7 0.
Proof.
  exists node, [("txid", VSTR "tx7"); ("index", VINT 0)], "tx7".
  repeat split; vm_compute; congruence.
Defined.

Lemma spentinfo_mempool_then_index_witness :
  fSpentIndex enabled = true /\
  spentinfo_request spent_request pool cm 7 0 /\
  getspentinfo enabled spent_request
  = Ok (spent_object (mkSpentIndexValue 6 1 (-1) 50 1 1)).
Proof.
  split; [reflexivity|]. split; [exact spent_request_ok|].
  exact (proj2 (proj1
    (spentinfo_mempool_then_index enabled spent_request pool cm 7 0
       eq_refl spent_request_ok) _ eq_refl)).
Defined.

Lemma timestamp_active_only_witness :
  fTimestampIndex enabled = true /\
  ReadTimestampIndex (m_block_tree_db cm) 20 5
  = Some [(1100, 10); (5000, 11); (1101, 12)] /\
  GetTimestampIndex enabled cm 20 5 true [] = inr [(1100, 10); (1101, 12)].
Proof.
  split; [reflexivity|]. split; [reflexivity|].
  destruct (timestamp_active_only enabled cm 20 5
              [(1100, 10); (5000, 11); (1101, 12)] eq_refl eq_refl)
    as (kept & Hkept & _ & -> & _).
  exact Hkept.
Defined.

Definition utxos_request : JSONRPCRequest :=
  request (VOBJ [addresses ["addrA"]]).

Lemma utxos_sorted_by_height_witness :
  EnsureAnyChainman (context utxos_request) = Ok cm /\
  fAddressIndex enabled = true /\
  utxos_chainInfo (param (params utxos_request) 0) = Ok false /\
  getAddressesFromParams (params utxos_request) [] = Ok (true, [(1, 1)]) /\
  for_each [(1, 1)] (read_unspent enabled cm) [] = Ok unspentA /\
  Forall (fun it => is_Some (utxo_render it)) unspentA /\
  exists utxos,
    getaddressutxos enabled utxos_request = Ok (VARR utxos) /\
    json_int "height" <$> utxos = [100; 120].
Proof.
  assert (Hknown : Forall (fun it => is_Some (utxo_render it)) unspentA).
  { repeat constructor; vm_compute; eauto. }
  assert (Hcm : EnsureAnyChainman (context utxos_request) = Ok cm)
    by reflexivity.
  assert (Hinfo : utxos_chainInfo (param (params utxos_request) 0) = Ok false)
    by reflexivity.
  assert (Haddr : getAddressesFromParams (params utxos_request) []
                  = Ok (true, [(1, 1)])) by reflexivity.
  assert (Hread : for_each [(1, 1)] (read_unspent enabled cm) [] = Ok unspentA)
    by reflexivity.
  split; [exact Hcm|]. split; [reflexivity|]. split; [exact Hinfo|].
  split; [exact Haddr|]. split; [exact Hread|]. split; [exact Hknown|].
  destruct (utxos_sorted_by_height enabled utxos_request cm [(1, 1)] unspentA
              false Hcm eq_refl Hinfo Haddr Hread Hknown)
    as (utxos & Hmap & _ & _ & _ & Hres & _).
  exists utxos. split; [exact (Hres eq_refl)|].
  vm_compute in Hmap. injection Hmap as <-. reflexivity.
Defined.

Lemma mempool_deltas_sorted_witness :
  context utxos_request = Some node /\
  mempool node = Some pool /\
  fAddressIndex enabled = true /\
  getAddressesFromParams (params utxos_request) [] = Ok (true, [(1, 1)]) /\
  is_Some (getAddressIndex pool [(1, 1)]) /\
  exists result,
    getaddressmempool enabled utxos_request = Ok (VARR result) /\
    json_int "timestamp" <$> result = [1000; 2000] /\
    prev_fields <$> result = [(VNULL, VNULL); (VSTR "tx7", VINT 0)].
Proof.
  assert (Haddr : getAddressesFromParams (params utxos_request) []
                  = Ok (true, [(1, 1)])) by reflexivity.
  do 3 (split; [reflexivity|]). split; [exact Haddr|]. split; [by eexists|].
  assert (Hknown : Forall (fun it => is_Some (mempool_delta_render it))
    [(mkMempoolAddressDeltaKey 1 1 6 1, mkMempoolAddressDelta 2000 (-50) 7 0);
     (mkMempoolAddressDeltaKey 1 1 5 0, mkMempoolAddressDelta 1000 40 0 0)]).
  { repeat constructor; vm_compute; eauto. }
  destruct (mempool_deltas_sorted enabled utxos_request node pool [(1, 1)] _
              eq_refl eq_refl eq_refl Haddr eq_refl Hknown)
    as (result & Hres & Hmap & _).
  exists result. split; [exact Hres|].
  vm_compute in Hmap. injection Hmap as <-. split; reflexivity.
Defined.

Definition txids_addresses : list (Z * Z) := [(2, 1); (1, 1)].

Lemma txids_deduplicated_witness :
  (forall k1 k2, k1 ∈ scan_key <$> (indexB ++ indexA) ->
     k2 ∈ scan_key <$> (indexB ++ indexA) -> k1.2 = k2.2 -> k1.1 = k2.1) /\
  NoDup (txids_output txids_addresses (indexB ++ indexA)) /\
  txids_output txids_addresses (indexB ++ indexA)
  = [VSTR "tx7"; VSTR "tx8"; VSTR "tx9"] /\
  txids_output [(1, 1)] (indexB ++ indexA)
  = [VSTR "tx8"; VSTR "tx7"; VSTR "tx9"].
Proof.
  assert (Hheight : forall k1 k2, k1 ∈ scan_key <$> (indexB ++ indexA) ->
     k2 ∈ scan_key <$> (indexB ++ indexA) -> k1.2 = k2.2 -> k1.1 = k2.1).
  { intros k1 k2 H1 H2. vm_compute in H1, H2.
    repeat (apply elem_of_cons in H1 as [->|H1]);
      try (by apply elem_of_nil in H1);
      repeat (apply elem_of_cons in H2 as [->|H2]);
      try (by apply elem_of_nil in H2); simpl; congruence. }
  split; [exact Hheight|]. split; [|split; reflexivity].
  exact (proj2 (proj2 (txids_deduplicated txids_addresses (indexB ++ indexA)))
           Hheight).
Defined.

Definition spent_only_request : JSONRPCRequest :=
  request (VOBJ [("txid", VSTR "tx8"); ("index", VINT 0)]).

Lemma spent_only_request_ok : spentinfo_request spent_only_request pool cm 8 0.
Proof.
  exists node, [("txid", VSTR "tx8"); ("index", VINT 0)], "tx8".
  repeat split; vm_compute; congruence.
Defined.

Lemma disabled_index_errors_witness :
  fAddressIndex disabled = false /\
  fSpentIndex disabled = false /\
  spentinfo_request spent_only_request pool cm 8 0 /\
  getaddressdeltas disabled utxos_request = Throw index_not_enabled /\
  getaddressutxos disabled utxos_request = Throw index_not_enabled /\
  getspentinfo disabled spent_only_request = Throw unable_spent_info.
Proof.
  do 2 (split; [reflexivity|]). split; [exact spent_only_request_ok|].
  destruct (disabled_index_errors disabled utxos_request) as [Haddr _].
  destruct (Haddr eq_refl) as (Hdeltas & _ & Hutxos & _).
  split; [exact Hdeltas|]. split; [exact (Hutxos cm eq_refl)|].
  exact (proj1 (proj2 (proj2 (disabled_index_errors disabled spent_only_request))
                  eq_refl pool cm 8 0 spent_only_request_ok)).
Defined.

(** The claim of the specification for the six queries on one request. *)
Definition not_enabled_claim (g : Globals) (request : JSONRPCRequest) : Prop :=
  (fAddressIndex g = false ->
   fails_not_enabled (getaddressbalance g request) /\
   fails_not_enabled (getaddressutxos g request) /\
   fails_not_enabled (getaddressdeltas g request) /\
   fails_not_enabled (getaddresstxids g request) /\
   fails_not_enabled (getaddressmempool g request)) /\
  (fSpentIndex g = false -> fails_not_enabled (getspentinfo g request)).

(** With both indexes disabled: getspentinfo on an output the sample node
    has no record of fails with the lookup-miss error, and so does
    getaddressbalance on an address of the sample node. *)
Lemma not_enabled_counterexample :
  ~ not_enabled_claim disabled spent_only_request /\
  ~ not_enabled_claim disabled utxos_request.
Proof.
  split.
  - intros [_ Hspent]. destruct (Hspent eq_refl) as (e & He & Hmiss & _).
    vm_compute in He. injection He as <-.
    apply Hmiss. right. left. reflexivity.
  - intros [Haddr _].
    destruct (Haddr eq_refl) as ((e & He & Hmiss & _) & _).
    vm_compute in He. injection He as <-.
    apply Hmiss. left. reflexivity.
Qed.

Definition start_only_request : JSONRPCRequest :=
  request (VOBJ [addresses ["addrA"]; ("start", VINT 110)]).

Definition bad_range_request : JSONRPCRequest :=
  request (VOBJ [addresses ["addrA"]; ("start", VINT 110); ("end", VINT 105)]).

Lemma deltas_range_checked_witness :
  fAddressIndex enabled = true /\
  EnsureAnyChainman (context bad_range_request) = Ok cm /\
  param (params bad_range_request) 0
  = VOBJ [addresses ["addrA"]; ("start", VINT 110); ("end", VINT 105)] /\
  getaddressdeltas enabled bad_range_request = Throw range_end_before_start.
Proof.
  do 3 (split; [reflexivity|]).
  assert (H1 : in_int 110) by (unfold in_int, INT_MIN, INT_MAX; lia).
  assert (H2 : in_int 105) by (unfold in_int, INT_MIN, INT_MAX; lia).
  destruct (proj1 (deltas_range_checked enabled bad_range_request cm _
                     eq_refl eq_refl eq_refl) 110 105 eq_refl eq_refl H1 H2)
    as (_ & Hbad & _).
  apply Hbad; lia.
Defined.

(** A request that gives start without end is served: the scan is the
    unbounded one. *)
Lemma range_claim_counterexample :
  ~ range_claim enabled start_only_request.
Proof.
  intros Hclaim.
  destruct (Hclaim [addresses ["addrA"]; ("start", VINT 110)] eq_refl)
    as (e & He & _).
  { left. split; reflexivity. }
  vm_compute in He. discriminate He.
Qed.

End OnSample.

(** * Further properties of rpc/index.cpp *)

(** ** Inversion of sequencing *)

Lemma bind_Ok_inv {A B} (m : Result A) (k : A -> Result B) (b : B) :
  m ≫= k = Ok b -> exists a, m = Ok a /\ k a = Ok b.
Proof.
  destruct m as [a|e]; [|by rewrite bind_Throw].
  rewrite bind_Ok. intros H. by exists a.
Qed.

Lemma bind_Throw_inv {A B} (m : Result A) (k : A -> Result B) (e : Exception) :
  m ≫= k = Throw e -> m = Throw e \/ exists a, m = Ok a /\ k a = Throw e.
Proof.
  destruct m as [a|e'].
  - rewrite bind_Ok. intros H. right. by exists a.
  - rewrite bind_Throw. intros [= ->]. by left.
Qed.

(** ** Address keys *)

Section Addresses.
Context {E : Externals}.

(** The five address-type codes are different numbers. *)
Definition codes_distinct : Prop :=
  NoDup [ADDR_INDT_SCRIPT_ADDRESS; ADDR_INDT_PUBKEY_ADDRESS;
         ADDR_INDT_WITNESS_V0_KEYHASH; ADDR_INDT_WITNESS_V0_SCRIPTHASH;
         ADDR_INDT_WITNESS_V1_TAPROOT].

(** A 20-byte hash is a number below 2^160. *)
Definition fits_uint160 (dest : CTxDestination) : Prop :=
  match dest with
  | PKHash id | ScriptHash id | WitnessV0KeyHash id => 0 <= id < 2 ^ 160
  | _ => True
  end.

Lemma first20_small id : 0 <= id < 2 ^ 160 -> first20 id = id.
Proof.
  intros Hid. unfold first20. rewrite Z.land_ones by lia.
  apply Z.mod_small. lia.
Qed.

Lemma first20_mod hash : first20 hash = hash mod 2 ^ 160.
Proof. unfold first20. by rewrite Z.land_ones by lia. Qed.

(** X1. Round trip of an address through the index key: when the five
    type codes are distinct and the decoded hash fits its 20 bytes, the key
    getIndexKey computes for an address string is rendered by
    getAddressFromIndex as the encoding of the destination the string
    decodes to. *)
Theorem index_key_round_trip (str : string) (hash : uint256) (ty : Z) :
  codes_distinct ->
  fits_uint160 (DecodeDestination str) ->
  getIndexKey str = Some (hash, ty) ->
  getAddressFromIndex ty hash
  = Some (EncodeDestination (DecodeDestination str)).
Proof.
  unfold codes_distinct, getIndexKey, getAddressFromIndex.
  rewrite !NoDup_cons, !elem_of_cons, !elem_of_nil.
  intros Hcodes Hfits Hkey.
  destruct (DecodeDestination str) as [|id|id|id|id|id|v p];
    simpl in Hkey, Hfits; try done; injection Hkey as <- <-;
    rewrite ?first20_small by done;
    repeat match goal with
    | |- context [?a =? ?b] =>
        first [ rewrite (Z.eqb_refl a)
              | rewrite (proj2 (Z.eqb_neq a b)) by tauto ]
    end; try done.
  all: repeat match goal with
    | |- context [?a =? ?b] =>
        rewrite (proj2 (Z.eqb_neq a b))
          by (intros Heq; rewrite Heq in Hcodes; tauto)
    end; try done.
Qed.

(** X2. getIndexKey fails exactly on an invalid destination and on a
    witness program of unknown version, and every key it returns has one
    of the five type codes, so getAddressFromIndex always renders it. *)
Theorem index_key_total_on_known (str : string) :
  (getIndexKey str = None <->
   DecodeDestination str = CNoDestination \/
   exists v p, DecodeDestination str = WitnessUnknown v p) /\
  (forall hash ty, getIndexKey str = Some (hash, ty) ->
     ty ∈ [ADDR_INDT_SCRIPT_ADDRESS; ADDR_INDT_PUBKEY_ADDRESS;
           ADDR_INDT_WITNESS_V0_KEYHASH; ADDR_INDT_WITNESS_V0_SCRIPTHASH;
           ADDR_INDT_WITNESS_V1_TAPROOT] /\
     is_Some (getAddressFromIndex ty hash)).
Proof.
  unfold getIndexKey. split.
  - destruct (DecodeDestination str) as [|id|id|id|id|id|v p]; simpl;
      split; try done; try (intros [?|(? & ? & ?)]; done); eauto.
  - intros hash ty Hkey. unfold getAddressFromIndex.
    destruct (DecodeDestination str) as [|id|id|id|id|id|v p];
      simpl in Hkey; try done; injection Hkey as <- <-;
      (split; [rewrite !elem_of_cons; tauto|]);
      repeat match goal with
      | |- context [?a =? ?b] => destruct (a =? b) eqn:?; eauto
      end;
      rewrite Z.eqb_refl in *; done.
Qed.

(** X3. For the three 20-byte address types getAddressFromIndex reads the
    first twenty bytes of the hash only: two hashes that agree modulo
    2^160 give the same address. *)
Theorem short_hash_types_ignore_high_bytes (ty : Z) (h1 h2 : uint256) :
  ty = ADDR_INDT_SCRIPT_ADDRESS \/ ty = ADDR_INDT_PUBKEY_ADDRESS \/
  ty = ADDR_INDT_WITNESS_V0_KEYHASH ->
  h1 mod 2 ^ 160 = h2 mod 2 ^ 160 ->
  getAddressFromIndex ty h1 = getAddressFromIndex ty h2.
Proof.
  intros Hty Hmod. unfold getAddressFromIndex.
  rewrite !first20_mod, Hmod.
  destruct (ty =? ADDR_INDT_SCRIPT_ADDRESS) eqn:H1; [done|].
  destruct (ty =? ADDR_INDT_PUBKEY_ADDRESS) eqn:H2; [done|].
  destruct (ty =? ADDR_INDT_WITNESS_V0_KEYHASH) eqn:H3; [done|].
  apply Z.eqb_neq in H1, H2, H3. tauto.
Qed.

End Addresses.

(** ** Resolving the addresses of a request *)

Section Resolve.
Context {E : Externals}.

Definition addresses_not_array : Exception :=
  JSONRPCError RPC_INVALID_ADDRESS_OR_KEY "Addresses is expected to be an array".

Definition not_a_string : Exception :=
  runtime_error "JSON value is not a string as expected".

(** The loop over the array of an object parameter. *)
Definition push_value (it : UniValue) (addresses : list (uint256 * Z))
    : Result (list (uint256 * Z)) :=
  str ← get_str it; push_address str addresses.

Lemma push_values_Ok values acc l :
  for_each values push_value acc = Ok l ->
  exists strs keys,
    values = VSTR <$> strs /\
    Forall2 (fun s k => getIndexKey s = Some k) strs keys /\
    l = acc ++ keys.
Proof.
  revert acc. induction values as [|v values IH]; intros acc.
  - simpl. intros [= <-]. exists [], []. by rewrite app_nil_r.
  - cbn [for_each]. intros H. apply bind_Ok_inv in H as (acc' & Hv & Hrest).
    unfold push_value in Hv. destruct v; try done. simpl in Hv.
    rewrite ?bind_Ok in Hv. unfold push_address in Hv.
    destruct (getIndexKey s) as [k|] eqn:Hk; [|done]. injection Hv as <-.
    destruct (IH _ Hrest) as (strs & keys & -> & Hall & ->).
    exists (s :: strs), (k :: keys). split; [done|]. split; [by constructor|].
    by rewrite <- app_assoc.
Qed.

Lemma push_values_Throw values acc e :
  for_each values push_value acc = Throw e ->
  e = invalid_address \/ e = not_a_string.
Proof.
  revert acc. induction values as [|v values IH]; intros acc; [done|].
  cbn [for_each]. intros H. apply bind_Throw_inv in H as [H|(acc' & _ & H)].
  - unfold push_value in H. destruct v; simpl in H;
      rewrite ?bind_Throw, ?bind_Ok in H; try (injection H as <-; by right).
    unfold push_address in H. destruct (getIndexKey s); [done|].
    injection H as <-. by left.
  - by eapply IH.
Qed.

(** X4. When getAddressesFromParams returns, it returns true, and the
    vector is the one it was given followed by one key per address string
    of the request, in order: the key of the single string, or the keys of
    the strings of the "addresses" array of the object. *)
Theorem addresses_from_params_shape (params : list UniValue)
    (acc : list (uint256 * Z)) (b : bool) (l : list (uint256 * Z)) :
  getAddressesFromParams params acc = Ok (b, l) ->
  b = true /\
  exists strs keys,
    Forall2 (fun s k => getIndexKey s = Some k) strs keys /\
    l = acc ++ keys /\
    ((exists s, param params 0 = VSTR s /\ strs = [s]) \/
     (exists kvs, param params 0 = VOBJ kvs /\
                  find_key kvs "addresses" = VARR (VSTR <$> strs))).
Proof.
  unfold getAddressesFromParams. destruct (param params 0) as [|kvs|vs|s|n|b0];
    simpl; try done.
  - destruct (find_key kvs "addresses") as [|?|values|?|?|?] eqn:Hfind;
      rewrite ?bind_Ok; try done.
    intros H. apply bind_Ok_inv in H as (l' & Hloop & [= <- <-]).
    split; [done|].
    destruct (push_values_Ok values acc l' Hloop) as (strs & keys & -> & Hall & ->).
    exists strs, keys. split; [done|]. split; [done|]. right. by exists kvs.
  - rewrite ?bind_Ok. unfold push_address.
    destruct (getIndexKey s) as [k|] eqn:Hk; [|done].
    rewrite ?bind_Ok. intros [= <- <-]. split; [done|].
    exists [s], [k]. split; [by repeat constructor|]. split; [done|].
    left. by exists s.
Qed.

(** X5. The two forms of the first parameter agree: a single address
    string resolves as the object whose "addresses" array holds that one
    string. *)
Theorem single_address_forms_agree (s : string)
    (kvs : list (string * UniValue)) (rest1 rest2 : list UniValue)
    (acc : list (uint256 * Z)) :
  find_key kvs "addresses" = VARR [VSTR s] ->
  getAddressesFromParams (VSTR s :: rest1) acc
  = getAddressesFromParams (VOBJ kvs :: rest2) acc.
Proof.
  intros Hfind. unfold getAddressesFromParams. simpl. rewrite Hfind.
  cbn [for_each get_str]. rewrite ?bind_Ok.
  destruct (push_address s acc); by rewrite ?bind_Ok, ?bind_Throw.
Qed.

Lemma addresses_from_params_Throw params acc e :
  getAddressesFromParams params acc = Throw e ->
  e = invalid_address \/ e = addresses_not_array \/ e = not_a_string.
Proof.
  unfold getAddressesFromParams. destruct (param params 0) as [|kvs|vs|s|n|b0];
    simpl; try (intros [= <-]; by left).
  - rewrite ?bind_Ok.
    destruct (find_key kvs "addresses") as [|?|values|?|?|?];
      try (intros [= <-]; right; by left).
    intros H. apply bind_Throw_inv in H as [H|(? & _ & H)]; [|done].
    apply push_values_Throw in H as [-> | ->]; tauto.
  - rewrite ?bind_Ok. unfold push_address. destruct (getIndexKey s).
    + by rewrite ?bind_Ok.
    + rewrite ?bind_Throw. intros [= <-]. by left.
Qed.

Lemma scan_loop_Throw {X} (read : uint256 * Z -> list X -> string + list X)
    addresses acc e :
  for_each addresses
    (fun it acc => match read it acc with
                   | inr v => Ok v
                   | inl _ => Throw no_information
                   end) acc = Throw e ->
  e = no_information.
Proof.
  revert acc. induction addresses as [|it addresses IH]; intros acc; [done|].
  cbn [for_each]. destruct (read it acc) as [msg|v].
  - rewrite ?bind_Throw. by intros [= <-].
  - rewrite ?bind_Ok. apply IH.
Qed.

(** X6. The exceptions of the balance query: getaddressbalance throws only
    an address error of getAddressesFromParams, the error of a missing
    node context or chain manager, or "No information available for
    address". The error "Invalid address 7" written in the handler is never
    thrown, since getAddressesFromParams never returns false. *)
Theorem balance_exceptions (g : Globals) (request : JSONRPCRequest)
    (e : Exception) :
  getaddressbalance g request = Throw e ->
  e ∈ [invalid_address; addresses_not_array; not_a_string;
       JSONRPCError RPC_INTERNAL_ERROR "Node context not found";
       JSONRPCError RPC_INTERNAL_ERROR "Node chainman not found";
       no_information] /\
  e <> JSONRPCError RPC_INVALID_ADDRESS_OR_KEY "Invalid address 7".
Proof.
  intros H.
  assert (Hin : e ∈ [invalid_address; addresses_not_array; not_a_string;
       JSONRPCError RPC_INTERNAL_ERROR "Node context not found";
       JSONRPCError RPC_INTERNAL_ERROR "Node chainman not found";
       no_information]).
  { unfold getaddressbalance in H.
    apply bind_Throw_inv in H as [H|([ok addresses] & Haddr & H)].
    { apply addresses_from_params_Throw in H as [-> | [-> | ->]];
        rewrite !elem_of_cons; tauto. }
    apply addresses_from_params_shape in Haddr as [-> _]. simpl negb in H.
    cbv iota in H.
    apply bind_Throw_inv in H as [H|(cm & _ & H)].
    { unfold EnsureAnyChainman, EnsureAnyNodeContext, EnsureChainman in H.
      destruct (context request) as [node|]; simpl in H.
      - rewrite ?bind_Ok in H. destruct (chainman node); [done|].
        injection H as <-. rewrite !elem_of_cons. tauto.
      - rewrite ?bind_Throw in H. injection H as <-.
        rewrite !elem_of_cons. tauto. }
    apply bind_Throw_inv in H as [H|(idx & _ & H)]; [|done].
    apply (scan_loop_Throw
             (fun it acc => GetAddressIndex g cm it.1 it.2 acc 0 0)) in H.
    subst e. rewrite !elem_of_cons. tauto. }
  split; [exact Hin|].
  rewrite !elem_of_cons, elem_of_nil in Hin.
  destruct Hin as [-> | [-> | [-> | [-> | [-> | [-> | []]]]]]]; discriminate.
Qed.

End Resolve.

(** ** Scanning several addresses *)

Section Scan.
Context {E : Externals}.

(** The bounds GetAddressIndex is called with: the range when both heights
    are positive, (0, 0) otherwise. *)
Definition scan_bounds (start end_ : Z) : Z * Z :=
  if (start >? 0) && (end_ >? 0) then (start, end_) else (0, 0).

(** The database read behind the scan of one address. *)
Definition read_address (cm : ChainstateManager) (start end_ : Z)
    (it : uint256 * Z) : option (list (CAddressIndexKey * CAmount)) :=
  ReadAddressIndex (m_block_tree_db cm) it.1 it.2
    (scan_bounds start end_).1 (scan_bounds start end_).2.

Lemma scan_address_read g cm start end_ it acc :
  fAddressIndex g = true ->
  scan_address g cm start end_ it acc
  = match read_address cm start end_ it with
    | Some entries => Ok (acc ++ entries)
    | None => Throw no_information
    end.
Proof.
  intros Hflag. unfold scan_address, read_address, scan_bounds, GetAddressIndex.
  rewrite Hflag. simpl negb. cbv iota.
  destruct ((start >? 0) && (end_ >? 0)); simpl;
    by destruct (ReadAddressIndex _ _ _ _ _).
Qed.

Lemma scan_addresses_from g cm start end_ addresses acc :
  fAddressIndex g = true ->
  for_each addresses (scan_address g cm start end_) acc
  = match mapM (read_address cm start end_) addresses with
    | Some scans => Ok (acc ++ concat scans)
    | None => Throw no_information
    end.
Proof.
  intros Hflag. revert acc.
  induction addresses as [|it addresses IH]; intros acc.
  - simpl. by rewrite app_nil_r.
  - cbn [for_each mapM]. rewrite scan_address_read by done.
    destruct (read_address cm start end_ it) as [entries|]; [|done].
    rewrite bind_Ok, IH. simpl.
    destruct (mapM _ addresses); simpl; [|done]. by rewrite app_assoc.
Qed.

(** X7. With the address index enabled, the scan of a list of addresses is
    the concatenation, in address order, of the database reads of the
    single addresses, and it fails with "No information available for
    address" as soon as one read fails; with the index disabled it fails
    for every non-empty list and returns nothing for the empty one. *)
Theorem scan_addresses_concat (g : Globals) (cm : ChainstateManager)
    (start end_ : Z) (addresses : list (uint256 * Z)) :
  (fAddressIndex g = true ->
   for_each addresses (scan_address g cm start end_) []
   = match mapM (read_address cm start end_) addresses with
     | Some scans => Ok (concat scans)
     | None => Throw no_information
     end) /\
  (fAddressIndex g = false ->
   for_each addresses (scan_address g cm start end_) []
   = if addresses is [] then Ok [] else Throw no_information).
Proof.
  split; intros Hflag.
  - by rewrite scan_addresses_from.
  - destruct addresses as [|it addresses]; [done|].
    cbn [for_each]. unfold scan_address, GetAddressIndex. rewrite Hflag.
    simpl negb. cbv iota. by destruct ((start >? 0) && (end_ >? 0)).
Qed.

End Scan.

(** ** More on the balance totals *)

Section BalanceMore.
Context {E : Externals}.

Lemma sumZ_app l1 l2 : sumZ (l1 ++ l2) = sumZ l1 + sumZ l2.
Proof.
  induction l1 as [|x l1 IH]; [done|].
  rewrite <- app_comm_cons, !sumZ_cons. lia.
Qed.

Lemma sumZ_perm l1 l2 : l1 ≡ₚ l2 -> sumZ l1 = sumZ l2.
Proof.
  induction 1 as [|x l1 l2 _ IH|x y l|l1 l2 l3 _ IH1 _ IH2];
    rewrite ?sumZ_cons; lia.
Qed.

Lemma sumZ_selected_app (P : CAddressIndexKey * CAmount -> Prop)
    `{!forall it, Decision (P it)} l1 l2 :
  sumZ (deltas (filter P (l1 ++ l2)))
  = sumZ (deltas (filter P l1)) + sumZ (deltas (filter P l2)).
Proof. unfold deltas. by rewrite filter_app, fmap_app, sumZ_app. Qed.

Lemma sumZ_selected_perm (P : CAddressIndexKey * CAmount -> Prop)
    `{!forall it, Decision (P it)} l1 l2 :
  l1 ≡ₚ l2 -> sumZ (deltas (filter P l1)) = sumZ (deltas (filter P l2)).
Proof. intros Hperm. apply sumZ_perm. unfold deltas. by rewrite Hperm. Qed.

Lemma int64_add_both a b : int64 (int64 a + int64 b) = int64 (a + b).
Proof. by rewrite int64_add_l, int64_add_r. Qed.

(** X8. The totals of the entries of two scans put one after the other are
    the [CAmount] sums of the totals of each scan: the balance query over
    several addresses adds up the balances of the single addresses, and an
    address given twice counts twice. *)
Theorem balance_totals_concat (nHeight : Z)
    (l1 l2 : list (CAddressIndexKey * CAmount)) :
  let t := balance_loop nHeight (l1 ++ l2) in
  let t1 := balance_loop nHeight l1 in
  let t2 := balance_loop nHeight l2 in
  balance t = int64 (balance t1 + balance t2) /\
  balance_immature t = int64 (balance_immature t1 + balance_immature t2) /\
  balance_spendable t = int64 (balance_spendable t1 + balance_spendable t2) /\
  received t = int64 (received t1 + received t2).
Proof.
  intros t t1 t2.
  destruct (balance_loop_spec nHeight (l1 ++ l2)) as (Hb & Hi & Hs & Hr).
  destruct (balance_loop_spec nHeight l1) as (Hb1 & Hi1 & Hs1 & Hr1).
  destruct (balance_loop_spec nHeight l2) as (Hb2 & Hi2 & Hs2 & Hr2).
  subst t t1 t2.
  rewrite Hb, Hi, Hs, Hr, Hb1, Hi1, Hs1, Hr1, Hb2, Hi2, Hs2, Hr2.
  rewrite !int64_add_both, !sumZ_selected_app.
  unfold deltas. rewrite !fmap_app, !filter_app, !sumZ_app. done.
Qed.

Lemma Totals_eq (t1 t2 : Totals) :
  balance t1 = balance t2 ->
  balance_spendable t1 = balance_spendable t2 ->
  balance_immature t1 = balance_immature t2 ->
  received t1 = received t2 ->
  t1 = t2.
Proof. destruct t1, t2. simpl. by intros -> -> -> ->. Qed.

(** X9. The totals do not depend on the order of the scanned entries, so
    neither on the order in which the addresses are given. *)
Theorem balance_totals_permutation (nHeight : Z)
    (l1 l2 : list (CAddressIndexKey * CAmount)) :
  l1 ≡ₚ l2 -> balance_loop nHeight l1 = balance_loop nHeight l2.
Proof.
  intros Hperm.
  destruct (balance_loop_spec nHeight l1) as (Hb1 & Hi1 & Hs1 & Hr1).
  destruct (balance_loop_spec nHeight l2) as (Hb2 & Hi2 & Hs2 & Hr2).
  apply Totals_eq.
  - rewrite Hb1, Hb2. f_equal. apply sumZ_perm. unfold deltas. by rewrite Hperm.
  - rewrite Hs1, Hs2. f_equal. by apply sumZ_selected_perm.
  - rewrite Hi1, Hi2. f_equal. by apply sumZ_selected_perm.
  - rewrite Hr1, Hr2. f_equal. apply sumZ_perm. unfold deltas. by rewrite Hperm.
Qed.

Lemma sumZ_positive_nonneg l : 0 <= sumZ (filter (fun d => 0 < d) l).
Proof.
  induction l as [|d l IH]; [done|]. rewrite filter_cons.
  destruct (decide (0 < d)); rewrite ?sumZ_cons; lia.
Qed.

Lemma sumZ_negative_nonpos l : sumZ (filter (fun d => d < 0) l) <= 0.
Proof.
  induction l as [|d l IH]; [done|]. rewrite filter_cons.
  destruct (decide (d < 0)); rewrite ?sumZ_cons; lia.
Qed.

Lemma sumZ_negative_none l :
  Forall (fun d => 0 <= d) l -> sumZ (filter (fun d => d < 0) l) = 0.
Proof.
  induction 1 as [|d l Hd _ IH]; [done|]. rewrite filter_cons.
  destruct (decide (d < 0)); [lia|done].
Qed.

(** X10. When no sum of deltas overflows, received is not negative and the
    balance does not exceed it; they are equal when no delta is negative
    (nothing was spent). *)
Theorem received_bounds_balance (nHeight : Z)
    (addressIndex : list (CAddressIndexKey * CAmount)) :
  no_overflow addressIndex ->
  let t := balance_loop nHeight addressIndex in
  0 <= received t /\
  balance t <= received t /\
  (Forall (fun d => 0 <= d) (deltas addressIndex) -> balance t = received t).
Proof.
  intros Hno t.
  destruct (balance_loop_spec nHeight addressIndex) as (Hb & _ & _ & Hr).
  fold t in Hb, Hr.
  pose proof (no_overflow_all _ Hno) as Iall.
  pose proof (no_overflow_select _ (fun it => 0 < it.2) Hno) as Ipos.
  unfold deltas in Ipos. rewrite (filter_snd (fun d => 0 < d)) in Ipos.
  rewrite int64_id in Hb, Hr by done.
  pose proof (sumZ_signs (deltas addressIndex)) as Hsigns.
  pose proof (sumZ_positive_nonneg (deltas addressIndex)) as Hpos.
  pose proof (sumZ_negative_nonpos (deltas addressIndex)) as Hneg.
  unfold deltas in *. repeat split; [lia|lia|].
  intros Hall. rewrite (sumZ_negative_none _ Hall) in Hsigns. lia.
Qed.

End BalanceMore.

(** ** More on getaddressdeltas *)

Section DeltasMore.
Context {E : Externals}.

(** X11. A range getaddressdeltas accepts is either absent, and then start
    and end are both 0, or a pair of integers with 0 < start <= end: the
    scan never sees a range with one positive bound only, nor an inverted
    one. *)
Theorem deltas_range_accepted (startValue endValue : UniValue) (s e : Z) :
  deltas_range startValue endValue = Ok (s, e) ->
  (isNum startValue && isNum endValue = false /\ s = 0 /\ e = 0) \/
  (startValue = VINT s /\ endValue = VINT e /\ 0 < s <= e /\ e <= INT_MAX).
Proof.
  unfold deltas_range.
  destruct (isNum startValue && isNum endValue) eqn:Hnum.
  - intros H. right.
    apply bind_Ok_inv in H as (s' & Hs & H).
    apply bind_Ok_inv in H as (e' & He & H).
    destruct ((s' <=? 0) || (e' <=? 0)) eqn:Hpos; [done|].
    destruct (e' <? s') eqn:Hlt; [done|]. injection H as <- <-.
    apply orb_false_iff in Hpos as [H1 H2].
    apply Z.leb_gt in H1, H2. apply Z.ltb_ge in Hlt.
    unfold getInt in Hs, He.
    destruct startValue as [| | | |[zs|]|]; try done.
    destruct endValue as [| | | |[ze|]|]; try done.
    destruct ((INT_MIN <=? zs) && (zs <=? INT_MAX)); [|done].
    destruct ((INT_MIN <=? ze) && (ze <=? INT_MAX)) eqn:Hrange; [|done].
    injection Hs as <-. injection He as <-.
    apply andb_true_iff in Hrange as [_ Hmax]. apply Z.leb_le in Hmax.
    repeat split; try done; lia.
  - intros [= <- <-]. by left.
Qed.

Definition not_an_object : Exception :=
  runtime_error "JSON value is not an object as expected".

(** X12. getaddressdeltas does not take the single-string form of the
    first parameter: with the index enabled it fails on the conversion to
    an object, before the address is looked at, while getaddresstxids
    serves the same request as a query for that one address. *)
Theorem deltas_rejects_string_form (g : Globals) (request : JSONRPCRequest)
    (cm : ChainstateManager) (s : string) :
  fAddressIndex g = true ->
  EnsureAnyChainman (context request) = Ok cm ->
  param (params request) 0 = VSTR s ->
  getaddressdeltas g request = Throw not_an_object /\
  getaddresstxids g request
  = match getIndexKey s with
    | None => Throw invalid_address
    | Some key =>
        addressIndex ← scan_address g cm 0 0 key [];
        Ok (VARR (txids_output [key] addressIndex))
    end.
Proof.
  intros Hflag Hcm Hparam. split.
  - unfold getaddressdeltas. rewrite Hflag. simpl negb. cbv iota.
    rewrite Hcm, bind_Ok, Hparam. done.
  - unfold getaddresstxids, getAddressesFromParams, txids_range, push_address.
    rewrite Hflag. simpl negb. cbv iota. rewrite Hcm, bind_Ok, Hparam.
    simpl isStr. cbv iota. simpl get_str. rewrite bind_Ok.
    destruct (getIndexKey s) as [key|]; [|done].
    rewrite !bind_Ok. simpl negb. cbv iota. simpl isObject. cbv iota.
    rewrite bind_Ok. cbn [for_each app].
    destruct (scan_address g cm 0 0 key []); by rewrite ?bind_Ok, ?bind_Throw.
Qed.

(** The object getaddressdeltas emits for an entry of a known type. *)
Definition delta_render (it : CAddressIndexKey * CAmount) : option UniValue :=
  address ← getAddressFromIndex (int32 (type it.1)) (hashBytes it.1);
  Some (delta_object address it).

Lemma push_delta_render it acc :
  push_delta it acc
  = match delta_render it with
    | None => Throw unknown_address_type
    | Some o => Ok (acc ++ [o])
    end.
Proof. unfold push_delta, delta_render. by destruct (getAddressFromIndex _ _). Qed.

Lemma delta_render_satoshis it o :
  delta_render it = Some o -> json_int "satoshis" o = it.2.
Proof.
  unfold delta_render. destruct (getAddressFromIndex _ _); [|done].
  simpl. by intros [= <-].
Qed.

Definition outside_chain_range : Exception :=
  JSONRPCError RPC_INVALID_ADDRESS_OR_KEY "Start or end is outside chain range".

(** The part of getaddressdeltas after the scan. *)
Lemma deltas_body_scanned g cm params info s e addresses idx :
  getAddressesFromParams params [] = Ok (true, addresses) ->
  for_each addresses (scan_address g cm s e) [] = Ok idx ->
  deltas_body g cm params info s e
  = match mapM delta_render idx with
    | None => Throw unknown_address_type
    | Some deltas =>
        if info && (s >? 0) && (e >? 0) then
          if (s >? Height (ActiveChain cm)) || (e >? Height (ActiveChain cm))
          then Throw outside_chain_range
          else
            match chain_at (ActiveChain cm) s, chain_at (ActiveChain cm) e with
            | Some startIndex, Some endIndex =>
                Ok (VOBJ [("deltas", VARR deltas);
                          ("start", block_info startIndex s);
                          ("end", block_info endIndex e)])
            | _, _ => Throw null_dereference
            end
        else Ok (VARR deltas)
    end.
Proof.
  intros Haddr Hscan. unfold deltas_body.
  rewrite Haddr, bind_Ok. simpl negb. cbv iota. rewrite Hscan, bind_Ok.
  rewrite (for_each_render delta_render unknown_address_type)
    by apply push_delta_render.
  destruct (mapM delta_render idx) as [deltas|]; [|done].
  by rewrite bind_Ok.
Qed.

(** X13. After a successful scan getaddressdeltas returns all or nothing:
    an entry of an unknown address type fails the whole query; otherwise
    there is one object per scanned entry, in scan order, carrying the
    entry's amount. Chain info is added only for a positive range, and then
    a bound above the tip fails the query although the deltas were
    computed; without it the result is the plain array. *)
Theorem deltas_outcomes (g : Globals) (cm : ChainstateManager)
    (params : list UniValue) (info : bool) (s e : Z)
    (addresses : list (uint256 * Z))
    (idx : list (CAddressIndexKey * CAmount)) :
  getAddressesFromParams params [] = Ok (true, addresses) ->
  for_each addresses (scan_address g cm s e) [] = Ok idx ->
  (Exists (fun it => delta_render it = None) idx ->
   deltas_body g cm params info s e = Throw unknown_address_type) /\
  (forall deltas, mapM delta_render idx = Some deltas ->
     length deltas = length idx /\
     json_int "satoshis" <$> deltas = idx.*2 /\
     (info = false \/ s <= 0 \/ e <= 0 ->
      deltas_body g cm params info s e = Ok (VARR deltas)) /\
     (info = true -> 0 < s -> 0 < e ->
      Height (ActiveChain cm) < s \/ Height (ActiveChain cm) < e ->
      deltas_body g cm params info s e = Throw outside_chain_range)).
Proof.
  intros Haddr Hscan.
  rewrite (deltas_body_scanned g cm params info s e addresses idx Haddr Hscan).
  split.
  - intros Hex. by rewrite (mapM_None_2 _ _ Hex).
  - intros deltas Hmap. rewrite Hmap. split; [|split; [|split]].
    + symmetry. by eapply length_mapM.
    + apply (rendered_keys delta_render snd "satoshis" idx deltas); [|done].
      apply delta_render_satoshis.
    + intros Hplain.
      assert (info && (s >? 0) && (e >? 0) = false) as ->; [|done].
      rewrite !andb_false_iff, !Z.gtb_ltb, !Z.ltb_ge.
      destruct Hplain as [->|[?|?]]; tauto.
    + intros -> Hs He Htip.
      assert (true && (s >? 0) && (e >? 0) = true) as ->.
      { rewrite !andb_true_iff, !Z.gtb_ltb, !Z.ltb_lt. done. }
      assert ((s >? Height (ActiveChain cm)) || (e >? Height (ActiveChain cm))
              = true) as ->; [|done].
      rewrite orb_true_iff, !Z.gtb_ltb, !Z.ltb_lt. done.
Qed.

End DeltasMore.

(** ** Agreement between the queries *)

Section Consistency.
Context {E : Externals}.

Lemma scan_unbounded_loop g cm addresses acc :
  for_each addresses (scan_address g cm 0 0) acc
  = for_each addresses
      (fun it addressIndex =>
         match GetAddressIndex g cm it.1 it.2 addressIndex 0 0 with
         | inr addressIndex => Ok addressIndex
         | inl _ => Throw no_information
         end) acc.
Proof. reflexivity. Qed.

(** A request that names its addresses in an object and gives no range. *)
Definition unbounded_request (request : JSONRPCRequest)
    (kvs : list (string * UniValue)) : Prop :=
  param (params request) 0 = VOBJ kvs /\
  isNum (find_key kvs "start") && isNum (find_key kvs "end") = false.

Lemma getaddressdeltas_unbounded g request cm kvs :
  fAddressIndex g = true ->
  EnsureAnyChainman (context request) = Ok cm ->
  unbounded_request request kvs ->
  getaddressdeltas g request
  = deltas_body g cm (params request) (chainInfo_flag kvs) 0 0.
Proof.
  intros Hflag Hcm [Hobj Hnum].
  rewrite (getaddressdeltas_range g request cm kvs Hflag Hcm Hobj).
  unfold deltas_range. rewrite Hnum. by rewrite bind_Ok.
Qed.

(** What a served unbounded deltas query has read. *)
Lemma getaddressdeltas_served g request cm kvs deltas :
  fAddressIndex g = true ->
  EnsureAnyChainman (context request) = Ok cm ->
  unbounded_request request kvs ->
  getaddressdeltas g request = Ok (VARR deltas) ->
  exists addresses idx,
    getAddressesFromParams (params request) [] = Ok (true, addresses) /\
    for_each addresses (scan_address g cm 0 0) [] = Ok idx /\
    mapM delta_render idx = Some deltas.
Proof.
  intros Hflag Hcm Hreq.
  rewrite (getaddressdeltas_unbounded g request cm kvs Hflag Hcm Hreq).
  intros H. pose proof H as H'. unfold deltas_body in H'.
  apply bind_Ok_inv in H' as ([ok addresses] & Haddr & H').
  pose proof (addresses_from_params_shape _ _ _ _ Haddr) as [-> _].
  simpl negb in H'. cbv iota in H'.
  apply bind_Ok_inv in H' as (idx & Hscan & _).
  rewrite (deltas_body_scanned g cm _ _ 0 0 addresses idx Haddr Hscan) in H.
  exists addresses, idx. split; [done|]. split; [done|].
  destruct (mapM delta_render idx) as [deltas'|]; [|done].
  rewrite andb_false_r in H. by injection H as ->.
Qed.

(** X14. The balance is the sum of the deltas: when getaddressdeltas
    serves a request without range, getaddressbalance serves the same
    request, its balance is the [CAmount] sum of the "satoshis" of the
    deltas and its received the sum of the positive ones. *)
Theorem balance_is_sum_of_deltas (g : Globals) (request : JSONRPCRequest)
    (cm : ChainstateManager) (kvs : list (string * UniValue))
    (deltas : list UniValue) :
  fAddressIndex g = true ->
  EnsureAnyChainman (context request) = Ok cm ->
  unbounded_request request kvs ->
  getaddressdeltas g request = Ok (VARR deltas) ->
  exists t,
    getaddressbalance g request = Ok (balance_result t) /\
    balance t = sum64 (json_int "satoshis" <$> deltas) /\
    received t
    = sum64 (filter (fun d => 0 < d) (json_int "satoshis" <$> deltas)).
Proof.
  intros Hflag Hcm Hreq Hdeltas.
  destruct (getaddressdeltas_served g request cm kvs deltas Hflag Hcm Hreq
              Hdeltas) as (addresses & idx & Haddr & Hscan & Hmap).
  rewrite scan_unbounded_loop in Hscan.
  exists (balance_loop (int32 (uint32 (Height (ActiveChain cm)))) idx).
  split; [by apply (getaddressbalance_returns g request cm addresses)|].
  rewrite (rendered_keys delta_render snd "satoshis" idx deltas
             delta_render_satoshis Hmap).
  destruct (balance_loop_spec (int32 (uint32 (Height (ActiveChain cm)))) idx)
    as (Hb & _ & _ & Hr).
  by rewrite !sum64_sumZ.
Qed.

(** Every scanned txid is emitted, and nothing else. *)
Lemma txids_output_elem addresses idx txid :
  VSTR txid ∈ txids_output addresses idx <-> txid ∈ (scan_key <$> idx).*2.
Proof.
  assert (Hemit : forall (emitted : list (Z * string)),
    (forall k, k ∈ emitted <-> k ∈ scan_key <$> idx) ->
    VSTR txid ∈ emit <$> emitted <-> txid ∈ (scan_key <$> idx).*2).
  { intros emitted Helem. rewrite !list_elem_of_fmap. split.
    - intros (k & [= ->] & Hk). exists k. by rewrite <- Helem.
    - intros (k & -> & Hk). exists k. by rewrite Helem. }
  unfold txids_output. destruct (1 <? length addresses)%nat.
  - destruct (txids_multi idx [] []) as (s' & Hfold & _ & Helem);
      [constructor|].
    rewrite Hfold. simpl app. apply Hemit. intros k.
    rewrite Helem, elem_of_nil. tauto.
  - pose proof (txids_single idx [] []) as Hsingle.
    destruct (fold_left (txids_step false) idx ([], [])) as [txids result].
    cbn [snd] in Hsingle. rewrite Hsingle by constructor. simpl app.
    apply Hemit. intros k. rewrite keep_first_from_elem, elem_of_nil. tauto.
Qed.

(** The string member [name] of an emitted object. *)
Definition json_member (name : string) (o : UniValue) : UniValue :=
  find_value o name.

Lemma delta_render_txid it o :
  delta_render it = Some o ->
  json_member "txid" o = VSTR (scan_key it).2.
Proof.
  unfold delta_render. destruct (getAddressFromIndex _ _); [|done].
  simpl. by intros [= <-].
Qed.

(** X15. The txid list is the set of txids of the deltas: when
    getaddressdeltas serves a request without range, getaddresstxids
    serves it too and lists a txid iff one of the deltas carries it. *)
Theorem txids_are_txids_of_deltas (g : Globals) (request : JSONRPCRequest)
    (cm : ChainstateManager) (kvs : list (string * UniValue))
    (deltas : list UniValue) :
  fAddressIndex g = true ->
  EnsureAnyChainman (context request) = Ok cm ->
  unbounded_request request kvs ->
  getaddressdeltas g request = Ok (VARR deltas) ->
  exists txids,
    getaddresstxids g request = Ok (VARR txids) /\
    forall txid,
      VSTR txid ∈ txids <-> VSTR txid ∈ json_member "txid" <$> deltas.
Proof.
  intros Hflag Hcm Hreq Hdeltas.
  destruct (getaddressdeltas_served g request cm kvs deltas Hflag Hcm Hreq
              Hdeltas) as (addresses & idx & Haddr & Hscan & Hmap).
  destruct Hreq as [Hobj Hnum].
  exists (txids_output addresses idx). split.
  - unfold getaddresstxids, txids_range. rewrite Hflag. simpl negb. cbv iota.
    rewrite Hcm, bind_Ok, Haddr, bind_Ok. simpl negb. cbv iota.
    rewrite Hobj. simpl isObject. cbv iota. simpl get_obj. rewrite bind_Ok.
    simpl find_value. rewrite Hnum, bind_Ok, Hscan. by rewrite bind_Ok.
  - intros txid. rewrite txids_output_elem.
    assert (Hfields : json_member "txid" <$> deltas
                      = (fun it => VSTR (scan_key it).2) <$> idx).
    { apply mapM_Some_1 in Hmap. clear -Hmap.
      induction Hmap as [|it o idx deltas Hit _ IH]; [done|].
      rewrite !fmap_cons, IH. f_equal. by apply delta_render_txid. }
    rewrite Hfields, !list_elem_of_fmap. split.
    + intros (k & -> & (it & -> & Hit)%list_elem_of_fmap). by exists it.
    + intros (it & [= ->] & Hit). exists (scan_key it). split; [done|].
      apply list_elem_of_fmap. by exists it.
Qed.

Lemma sorted_set_unique (s1 s2 : list (Z * string)) :
  StronglySorted height_txid_lt s1 ->
  StronglySorted height_txid_lt s2 ->
  (forall k, k ∈ s1 <-> k ∈ s2) ->
  s1 = s2.
Proof.
  intros H1 H2 Helem.
  apply (StronglySorted_unique_strong height_txid_lt); [|done|done|].
  - intros x1 x2 _ _ H12 H21. exfalso.
    apply (height_txid_lt_irrefl x1). by eapply height_txid_lt_trans.
  - apply NoDup_Permutation; [by apply sorted_NoDup..|done].
Qed.

(** X16. With more than one queried address the txid list depends only on
    the set of (height, txid) pairs that were scanned: neither the order
    of the addresses nor the number of entries per transaction changes
    it. *)
Theorem txids_multi_order_free (a1 a2 : list (uint256 * Z))
    (idx1 idx2 : list (CAddressIndexKey * CAmount)) :
  (1 < length a1)%nat ->
  (1 < length a2)%nat ->
  (forall k, k ∈ scan_key <$> idx1 <-> k ∈ scan_key <$> idx2) ->
  txids_output a1 idx1 = txids_output a2 idx2.
Proof.
  intros H1 H2 Hkeys. unfold txids_output.
  apply Nat.ltb_lt in H1, H2. rewrite H1, H2.
  destruct (txids_multi idx1 [] []) as (s1 & Hfold1 & Hs1 & He1);
    [constructor|].
  destruct (txids_multi idx2 [] []) as (s2 & Hfold2 & Hs2 & He2);
    [constructor|].
  rewrite Hfold1, Hfold2. f_equal. f_equal.
  apply sorted_set_unique; [done..|].
  intros k. rewrite He1, He2, !elem_of_nil, Hkeys. tauto.
Qed.

End Consistency.

(** ** getblockhashes *)

Section BlockHashes.
Context {E : Externals}.
#[local] Existing Instance on_active_chain_dec.

(** The value of an optional boolean member. *)
Definition flag_of (obj : UniValue) (name : string) : bool :=
  match find_value obj name with
  | VBOOL b => b
  | _ => false
  end.

Lemma read_flag_total obj name : read_flag obj name = Ok (flag_of obj name).
Proof. unfold read_flag, flag_of. by destruct (find_value obj name). Qed.

(** The options of a request: read from the third parameter when it is an
    object, false otherwise; a member that is not a boolean counts as
    false. *)
Definition options_of (params : list UniValue) : bool * bool :=
  if (2 <? length params)%nat && isObject (param params 2) then
    (flag_of (param params 2) "noOrphans",
     flag_of (param params 2) "logicalTimes")
  else (false, false).

Lemma blockhashes_options_total params :
  blockhashes_options params = Ok (options_of params).
Proof.
  unfold blockhashes_options, options_of.
  destruct ((2 <? length params)%nat && isObject (param params 2)) eqn:Hobj;
    [|done].
  apply andb_true_iff in Hobj as [_ Hobj].
  destruct (param params 2); try done. simpl get_obj.
  by rewrite bind_Ok, !read_flag_total, !bind_Ok.
Qed.

(** X17. getblockhashes on a request with two integer timestamps: with the
    timestamp index disabled, or when the database read fails, it throws
    "No information available for block hashes" (the same error for both);
    otherwise it returns one item per scanned block, in scan order,
    restricted to the blocks on the active chain when noOrphans is set.
    The options never fail the request, and the bounds are passed on as
    unsigned integers. *)
Theorem blockhashes_result (g : Globals) (request : JSONRPCRequest)
    (cm : ChainstateManager) (high low : Z) :
  EnsureAnyChainman (context request) = Ok cm ->
  getInt (param (params request) 0) = Ok high ->
  getInt (param (params request) 1) = Ok low ->
  getblockhashes g request
  = if fTimestampIndex g then
      match ReadTimestampIndex (m_block_tree_db cm) (uint32 high) (uint32 low)
      with
      | None => Throw no_block_hashes
      | Some entries =>
          Ok (VARR (map (blockhash_item (options_of (params request)).2)
                      (if (options_of (params request)).1
                       then filter (on_active_chain cm) entries
                       else entries)))
      end
    else Throw no_block_hashes.
Proof.
  intros Hcm Hhigh Hlow. unfold getblockhashes.
  rewrite Hcm, bind_Ok, Hhigh, bind_Ok, Hlow, bind_Ok.
  rewrite blockhashes_options_total, bind_Ok.
  destruct (options_of (params request)) as [fActiveOnly fLogicalTS].
  cbn [fst snd]. unfold GetTimestampIndex.
  destruct (fTimestampIndex g); [|done]. simpl negb. cbv iota.
  destruct (ReadTimestampIndex _ _ _) as [entries|]; [|done].
  simpl app. destruct fActiveOnly; [|done].
  rewrite erase_inactive_spec by lia. simpl take. by rewrite drop_0.
Qed.

End BlockHashes.

(** ** The comparators *)

(** X18. The two comparators handed to [std::sort] are strict weak
    orderings, as [std::sort] requires, and two entries are equivalent for
    them exactly when their heights, respectively their times, are
    equal. *)
Theorem sort_comparators_strict_weak :
  StrictWeakOrder heightSort /\
  StrictWeakOrder timestampSort /\
  (forall a b, heightSort a b = false /\ heightSort b a = false <->
               uv_blockHeight a.2 = uv_blockHeight b.2) /\
  (forall a b, timestampSort a b = false /\ timestampSort b a = false <->
               time a.2 = time b.2).
Proof.
  split; [apply (key_lt_swo (fun it => uv_blockHeight it.2))|].
  split; [apply (key_lt_swo (fun it => time it.2))|].
  unfold heightSort, timestampSort.
  split; intros a b; rewrite !Z.ltb_ge; lia.
Qed.

(** The key order of the spent index (spentindex.h). *)
Section SpentKeyOrder.

(** [operator<] of [uint256], declared in uint256.h. *)
Variable uint256_lt : uint256 -> uint256 -> bool.

Hypothesis uint256_lt_irrefl : forall a, uint256_lt a a = false.
Hypothesis uint256_lt_trans : forall a b c,
  uint256_lt a b = true -> uint256_lt b c = true -> uint256_lt a c = true.
Hypothesis uint256_lt_total : forall a b,
  uint256_lt a b = false -> uint256_lt b a = false -> a = b.

(** [CSpentIndexKeyCompare::operator()]. *)
Definition CSpentIndexKeyCompare (a b : CSpentIndexKey) : bool :=
  if sk_txid a =? sk_txid b then sk_outputIndex a <? sk_outputIndex b
  else uint256_lt (sk_txid a) (sk_txid b).

Lemma spent_key_compare_total a b :
  CSpentIndexKeyCompare a b = false -> CSpentIndexKeyCompare b a = false ->
  a = b.
Proof.
  unfold CSpentIndexKeyCompare. destruct a as [t1 i1], b as [t2 i2]. simpl.
  rewrite (Z.eqb_sym t2 t1). destruct (t1 =? t2) eqn:Ht.
  - apply Z.eqb_eq in Ht as ->. rewrite !Z.ltb_ge. intros. f_equal. lia.
  - apply Z.eqb_neq in Ht. intros H1 H2. destruct Ht.
    by apply uint256_lt_total.
Qed.

Lemma spent_key_compare_irrefl a : CSpentIndexKeyCompare a a = false.
Proof. unfold CSpentIndexKeyCompare. rewrite Z.eqb_refl. apply Z.ltb_irrefl. Qed.

Lemma spent_key_compare_trans a b c :
  CSpentIndexKeyCompare a b = true -> CSpentIndexKeyCompare b c = true ->
  CSpentIndexKeyCompare a c = true.
Proof.
  unfold CSpentIndexKeyCompare.
  destruct a as [t1 i1], b as [t2 i2], c as [t3 i3]. simpl.
  destruct (t1 =? t2) eqn:H12; [apply Z.eqb_eq in H12 as ->|];
    destruct (t2 =? t3) eqn:H23; try (apply Z.eqb_eq in H23 as ->);
    rewrite ?Z.eqb_refl, ?H12, ?H23, ?Z.ltb_lt; try lia; try done.
  intros Hab Hbc. pose proof (uint256_lt_trans _ _ _ Hab Hbc) as Hac.
  destruct (t1 =? t3) eqn:H13; [|done].
  apply Z.eqb_eq in H13 as ->.
  by rewrite uint256_lt_irrefl in Hac.
Qed.

(** X19. CSpentIndexKeyCompare orders the keys by txid and then by output
    index: it is a strict weak ordering, and two keys neither of which
    precedes the other are the same key, so a map ordered by it holds at
    most one spender per output. *)
Theorem spent_key_compare_strict_order :
  StrictWeakOrder CSpentIndexKeyCompare /\
  (forall a b, CSpentIndexKeyCompare a b = false ->
               CSpentIndexKeyCompare b a = false -> a = b) /\
  (forall a b, sk_txid a = sk_txid b ->
               CSpentIndexKeyCompare a b
               = (sk_outputIndex a <? sk_outputIndex b)).
Proof.
  split; [|split].
  - split.
    + apply spent_key_compare_irrefl.
    + apply spent_key_compare_trans.
    + intros a b c Hab Hba Hbc Hcb.
      pose proof (spent_key_compare_total a b Hab Hba) as ->.
      pose proof (spent_key_compare_total b c Hbc Hcb) as ->.
      split; apply spent_key_compare_irrefl.
  - apply spent_key_compare_total.
  - intros a b Heq. unfold CSpentIndexKeyCompare.
    by rewrite Heq, Z.eqb_refl.
Qed.

End SpentKeyOrder.

(** ** What the queries read, and what they reject *)

Section Reads.
Context {E : Externals} {SORT : StdSort}.

(** X20. Each query reads one store: getaddressmempool returns the same
    result whatever the chain manager of the node is (even absent), and
    the balance, UTXO, delta and txid queries return the same result
    whatever its mempool is. *)
Theorem queries_read_one_store (g : Globals) (params : list UniValue)
    (c1 c2 : option ChainstateManager) (p1 p2 : option CTxMemPool) :
  getaddressmempool g (mkRequest params (Some (mkNodeContext c1 p1)))
  = getaddressmempool g (mkRequest params (Some (mkNodeContext c2 p1))) /\
  getaddressbalance g (mkRequest params (Some (mkNodeContext c1 p1)))
  = getaddressbalance g (mkRequest params (Some (mkNodeContext c1 p2))) /\
  getaddressutxos g (mkRequest params (Some (mkNodeContext c1 p1)))
  = getaddressutxos g (mkRequest params (Some (mkNodeContext c1 p2))) /\
  getaddressdeltas g (mkRequest params (Some (mkNodeContext c1 p1)))
  = getaddressdeltas g (mkRequest params (Some (mkNodeContext c1 p2))) /\
  getaddresstxids g (mkRequest params (Some (mkNodeContext c1 p1)))
  = getaddresstxids g (mkRequest params (Some (mkNodeContext c1 p2))).
Proof. repeat split; reflexivity. Qed.

(** X21. getaddressutxos returns all or nothing: when one of the collected
    outputs has an address type getAddressFromIndex does not know, the
    query fails with "Unknown address type" and no output is returned. *)
Theorem utxos_unknown_type_fails (g : Globals) (request : JSONRPCRequest)
    (cm : ChainstateManager) (addresses : list (uint256 * Z))
    (collected : list (CAddressUnspentKey * CAddressUnspentValue))
    (includeChainInfo : bool) :
  EnsureAnyChainman (context request) = Ok cm ->
  fAddressIndex g = true ->
  utxos_chainInfo (param (params request) 0) = Ok includeChainInfo ->
  getAddressesFromParams (params request) [] = Ok (true, addresses) ->
  for_each addresses (read_unspent g cm) [] = Ok collected ->
  Exists (fun it => utxo_render it = None) collected ->
  getaddressutxos g request = Throw unknown_address_type.
Proof.
  intros Hcm Hflag Hinfo Haddr Hcollect Hex.
  assert (Hsorted : Exists (fun it => utxo_render it = None)
                      (std_sort heightSort collected)).
  { apply Exists_exists in Hex as (it & Hin & Hit). apply Exists_exists.
    exists it. split; [|done].
    by rewrite (std_sort_perm _ heightSort collected heightSort_swo). }
  unfold getaddressutxos. rewrite Hcm, bind_Ok, Hflag. simpl negb. cbv iota.
  rewrite Hinfo, bind_Ok, Haddr, bind_Ok. simpl negb. cbv iota.
  rewrite Hcollect, bind_Ok.
  rewrite (for_each_render utxo_render unknown_address_type)
    by apply push_utxo_render.
  by rewrite (mapM_None_2 _ _ Hsorted).
Qed.

(** X22. getspentinfo validates the request before it reads the flag or a
    store: once the node's mempool and chain manager are found, a first
    parameter that is not an object fails on the conversion, and an
    object whose "txid" is not a string or whose "index" is not a number
    fails with "Invalid txid or index", with the spent index enabled or
    not. *)
Theorem spentinfo_validates_first (g : Globals) (request : JSONRPCRequest)
    (node : NodeContext) (pool : CTxMemPool) (cm : ChainstateManager) :
  context request = Some node ->
  mempool node = Some pool ->
  chainman node = Some cm ->
  (isObject (param (params request) 0) = false ->
   getspentinfo g request = Throw not_an_object) /\
  (forall kvs, param (params request) 0 = VOBJ kvs ->
     isStr (find_key kvs "txid") = false \/
     isNum (find_key kvs "index") = false ->
     getspentinfo g request = Throw invalid_txid_or_index).
Proof.
  intros Hctx Hpool Hcm.
  split.
  - intros Hobj. unfold getspentinfo, EnsureAnyNodeContext, EnsureMemPool,
      EnsureChainman.
    rewrite Hctx, bind_Ok, Hpool, bind_Ok, Hcm, bind_Ok.
    by destruct (param (params request) 0).
  - intros kvs Hobj Hbad. unfold getspentinfo, EnsureAnyNodeContext,
      EnsureMemPool, EnsureChainman.
    rewrite Hctx, bind_Ok, Hpool, bind_Ok, Hcm, bind_Ok, Hobj.
    simpl get_obj. rewrite bind_Ok. simpl find_value.
    assert (negb (isStr (find_key kvs "txid"))
            || negb (isNum (find_key kvs "index")) = true) as ->; [|done].
    destruct Hbad as [-> | ->]; [done|]. apply orb_true_r.
Qed.

Lemma for_each_ext {X S} (f h : X -> S -> Result S) l acc :
  (forall x s, f x s = h x s) -> for_each l f acc = for_each l h acc.
Proof.
  intros Hext. revert acc. induction l as [|x l IH]; intros acc; [done|].
  cbn [for_each]. rewrite Hext. destruct (h x acc); [|done].
  by rewrite !bind_Ok.
Qed.

(** X23. getaddresstxids does not validate its range: for an object
    parameter with integer start and end it throws no range error; a
    bound that is not positive turns the query into the unbounded one, and
    any pair of positive bounds, inverted or not, is handed to the
    scan. *)
Theorem txids_range_not_validated (g : Globals) (request : JSONRPCRequest)
    (cm : ChainstateManager) (kvs : list (string * UniValue))
    (addresses : list (uint256 * Z)) (s e : Z) :
  fAddressIndex g = true ->
  EnsureAnyChainman (context request) = Ok cm ->
  param (params request) 0 = VOBJ kvs ->
  getAddressesFromParams (params request) [] = Ok (true, addresses) ->
  getInt (find_key kvs "start") = Ok s ->
  getInt (find_key kvs "end") = Ok e ->
  getaddresstxids g request
  = (addressIndex ←
       for_each addresses
         (scan_address g cm (scan_bounds s e).1 (scan_bounds s e).2) [];
     Ok (VARR (txids_output addresses addressIndex))) /\
  (s <= 0 \/ e <= 0 -> scan_bounds s e = (0, 0)) /\
  (0 < s -> 0 < e -> scan_bounds s e = (s, e)).
Proof.
  intros Hflag Hcm Hobj Haddr Hs He. split; [|split].
  - unfold getaddresstxids, txids_range. rewrite Hflag. simpl negb. cbv iota.
    rewrite Hcm, bind_Ok, Haddr, bind_Ok. simpl negb. cbv iota.
    rewrite Hobj. simpl isObject. cbv iota. simpl get_obj. rewrite bind_Ok.
    simpl find_value.
    assert (isNum (find_key kvs "start") && isNum (find_key kvs "end") = true)
      as ->.
    { unfold getInt in Hs, He.
      by destruct (find_key kvs "start"), (find_key kvs "end"). }
    rewrite Hs, bind_Ok, He, !bind_Ok.
    rewrite (for_each_ext (scan_address g cm s e)
               (scan_address g cm (scan_bounds s e).1 (scan_bounds s e).2));
      [done|].
    intros it acc. unfold scan_address, scan_bounds.
    destruct ((s >? 0) && (e >? 0)) eqn:Hb; simpl; [by rewrite Hb | done].
  - intros Hneg. unfold scan_bounds.
    assert ((s >? 0) && (e >? 0) = false) as ->; [|done].
    rewrite andb_false_iff, !Z.gtb_ltb, !Z.ltb_ge. done.
  - intros H1 H2. unfold scan_bounds.
    assert ((s >? 0) && (e >? 0) = true) as ->; [|done].
    rewrite andb_true_iff, !Z.gtb_ltb, !Z.ltb_lt. done.
Qed.

End Reads.

(** * The further properties on the sample node *)

Section MoreOnSample.
Import Sample.
#[local] Existing Instance insertion_StdSort.

Lemma sample_codes_distinct : codes_distinct.
Proof.
  unfold codes_distinct. simpl.
  repeat (apply NoDup_cons; split;
          [rewrite ?elem_of_cons, elem_of_nil; lia|]).
  apply NoDup_nil_2.
Defined.

Lemma index_key_round_trip_witness :
  codes_distinct /\
  fits_uint160 (DecodeDestination "addrA") /\
  getIndexKey "addrA" = Some (1, 1) /\
  getAddressFromIndex 1 1 = Some "addrA".
Proof.
  assert (Hfit : fits_uint160 (DecodeDestination "addrA")) by (simpl; lia).
  assert (Hkey : getIndexKey "addrA" = Some (1, 1)) by reflexivity.
  split; [exact sample_codes_distinct|]. split; [exact Hfit|].
  split; [exact Hkey|].
  exact (index_key_round_trip "addrA" 1 1 sample_codes_distinct Hfit Hkey).
Defined.

Lemma short_hash_types_ignore_high_bytes_witness :
  1 mod 2 ^ 160 = (1 + 2 ^ 160) mod 2 ^ 160 /\
  getAddressFromIndex 1 1 = getAddressFromIndex 1 (1 + 2 ^ 160).
Proof.
  assert (Hmod : 1 mod 2 ^ 160 = (1 + 2 ^ 160) mod 2 ^ 160) by reflexivity.
  split; [exact Hmod|].
  apply (short_hash_types_ignore_high_bytes 1 1 (1 + 2 ^ 160));
    [right; left; reflexivity | exact Hmod].
Defined.

Lemma addresses_from_params_shape_witness :
  getAddressesFromParams [VOBJ [addresses ["addrA"; "addrB"]]] []
  = Ok (true, [(1, 1); (2, 1)]) /\
  exists strs keys,
    Forall2 (fun s k => getIndexKey s = Some k) strs keys /\
    [(1, 1); (2, 1)] = [] ++ keys /\
    ((exists s, param [VOBJ [addresses ["addrA"; "addrB"]]] 0 = VSTR s /\
                strs = [s]) \/
     (exists kvs, param [VOBJ [addresses ["addrA"; "addrB"]]] 0 = VOBJ kvs /\
                  find_key kvs "addresses" = VARR (VSTR <$> strs))).
Proof.
  assert (H : getAddressesFromParams [VOBJ [addresses ["addrA"; "addrB"]]] []
              = Ok (true, [(1, 1); (2, 1)])) by reflexivity.
  split; [exact H|].
  exact (proj2 (addresses_from_params_shape _ _ _ _ H)).
Defined.

Lemma single_address_forms_agree_witness :
  find_key [addresses ["addrA"]] "addresses" = VARR [VSTR "addrA"] /\
  getAddressesFromParams [VSTR "addrA"] []
  = getAddressesFromParams [VOBJ [addresses ["addrA"]]] [].
Proof.
  assert (H : find_key [addresses ["addrA"]] "addresses" = VARR [VSTR "addrA"])
    by reflexivity.
  split; [exact H|].
  exact (single_address_forms_agree "addrA" [addresses ["addrA"]] [] [] [] H).
Defined.

Lemma balance_exceptions_witness :
  getaddressbalance disabled (request (VSTR "addrA")) = Throw no_information /\
  no_information <> JSONRPCError RPC_INVALID_ADDRESS_OR_KEY "Invalid address 7".
Proof.
  assert (H : getaddressbalance disabled (request (VSTR "addrA"))
              = Throw no_information) by reflexivity.
  split; [exact H|].
  exact (proj2 (balance_exceptions disabled (request (VSTR "addrA")) _ H)).
Defined.

Lemma scan_addresses_concat_witness :
  fAddressIndex enabled = true /\
  for_each [(1, 1); (2, 1)] (scan_address enabled cm 0 0) []
  = Ok (indexA ++ indexB).
Proof.
  split; [reflexivity|].
  rewrite (proj1 (scan_addresses_concat enabled cm 0 0 [(1, 1); (2, 1)])
             eq_refl).
  reflexivity.
Defined.

Lemma balance_totals_permutation_witness :
  indexB ++ indexA ≡ₚ indexA ++ indexB /\
  balance_loop 200 (indexB ++ indexA) = balance_loop 200 (indexA ++ indexB).
Proof.
  assert (H : indexB ++ indexA ≡ₚ indexA ++ indexB)
    by apply Permutation_app_comm.
  split; [exact H|].
  exact (balance_totals_permutation 200 _ _ H).
Defined.

Lemma received_bounds_balance_witness :
  no_overflow indexA /\
  0 <= received (balance_loop 200 indexA) /\
  balance (balance_loop 200 indexA) <= received (balance_loop 200 indexA).
Proof.
  assert (Hno : no_overflow indexA) by (vm_compute; discriminate).
  split; [exact Hno|].
  destruct (received_bounds_balance 200 indexA Hno) as (H1 & H2 & _).
  split; [exact H1 | exact H2].
Defined.

Lemma deltas_range_accepted_witness :
  deltas_range (VINT 100) (VINT 120) = Ok (100, 120) /\
  ((isNum (VINT 100) && isNum (VINT 120) = false /\ 100 = 0 /\ 120 = 0) \/
   (VINT 100 = VINT 100 /\ VINT 120 = VINT 120 /\ 0 < 100 <= 120 /\
    120 <= INT_MAX)).
Proof.
  assert (H : deltas_range (VINT 100) (VINT 120) = Ok (100, 120))
    by reflexivity.
  split; [exact H|].
  exact (deltas_range_accepted (VINT 100) (VINT 120) 100 120 H).
Defined.

Lemma deltas_rejects_string_form_witness :
  fAddressIndex enabled = true /\
  EnsureAnyChainman (context (request (VSTR "addrA"))) = Ok cm /\
  param (params (request (VSTR "addrA"))) 0 = VSTR "addrA" /\
  getaddressdeltas enabled (request (VSTR "addrA")) = Throw not_an_object /\
  getaddresstxids enabled (request (VSTR "addrA"))
  = Ok (VARR [VSTR "tx7"; VSTR "tx8"; VSTR "tx9"]).
Proof.
  do 3 (split; [reflexivity|]).
  destruct (deltas_rejects_string_form enabled (request (VSTR "addrA")) cm
              "addrA" eq_refl eq_refl eq_refl) as [Hdeltas Htxids].
  split; [exact Hdeltas|]. rewrite Htxids. reflexivity.
Defined.

Lemma deltas_outcomes_witness :
  getAddressesFromParams [VOBJ [addresses ["addrA"]]] [] = Ok (true, [(1, 1)]) /\
  for_each [(1, 1)] (scan_address enabled cm 300 400) [] = Ok [] /\
  deltas_body enabled cm [VOBJ [addresses ["addrA"]]] true 300 400
  = Throw outside_chain_range.
Proof.
  assert (H1 : getAddressesFromParams [VOBJ [addresses ["addrA"]]] []
               = Ok (true, [(1, 1)])) by reflexivity.
  assert (H2 : for_each [(1, 1)] (scan_address enabled cm 300 400) [] = Ok [])
    by reflexivity.
  split; [exact H1|]. split; [exact H2|].
  destruct (deltas_outcomes enabled cm _ true 300 400 _ _ H1 H2) as [_ H].
  destruct (H [] eq_refl) as (_ & _ & _ & Hout).
  apply Hout; [reflexivity | lia | lia | left; simpl; lia].
Defined.

Definition both_request : JSONRPCRequest :=
  request (VOBJ [addresses ["addrA"; "addrB"]]).

Lemma both_request_unbounded :
  unbounded_request both_request [addresses ["addrA"; "addrB"]].
Proof. split; reflexivity. Defined.

Definition both_deltas : list UniValue :=
  Eval vm_compute in
    match getaddressdeltas enabled both_request with
    | Ok (VARR l) => l
    | _ => []
    end.

Lemma both_deltas_served :
  getaddressdeltas enabled both_request = Ok (VARR both_deltas).
Proof. reflexivity. Defined.

Lemma balance_is_sum_of_deltas_witness :
  fAddressIndex enabled = true /\
  EnsureAnyChainman (context both_request) = Ok cm /\
  unbounded_request both_request [addresses ["addrA"; "addrB"]] /\
  getaddressdeltas enabled both_request = Ok (VARR both_deltas) /\
  exists t,
    getaddressbalance enabled both_request = Ok (balance_result t) /\
    balance t = sum64 (json_int "satoshis" <$> both_deltas) /\
    received t
    = sum64 (filter (fun d => 0 < d) (json_int "satoshis" <$> both_deltas)).
Proof.
  do 2 (split; [reflexivity|]). split; [exact both_request_unbounded|].
  split; [exact both_deltas_served|].
  exact (balance_is_sum_of_deltas enabled both_request cm _ both_deltas
           eq_refl eq_refl both_request_unbounded both_deltas_served).
Defined.

Lemma txids_are_txids_of_deltas_witness :
  fAddressIndex enabled = true /\
  EnsureAnyChainman (context both_request) = Ok cm /\
  unbounded_request both_request [addresses ["addrA"; "addrB"]] /\
  getaddressdeltas enabled both_request = Ok (VARR both_deltas) /\
  exists txids,
    getaddresstxids enabled both_request = Ok (VARR txids) /\
    forall txid,
      VSTR txid ∈ txids <-> VSTR txid ∈ json_member "txid" <$> both_deltas.
Proof.
  do 2 (split; [reflexivity|]). split; [exact both_request_unbounded|].
  split; [exact both_deltas_served|].
  exact (txids_are_txids_of_deltas enabled both_request cm _ both_deltas
           eq_refl eq_refl both_request_unbounded both_deltas_served).
Defined.

Definition keys_A : list (uint256 * Z) := [(1, 1)].
Definition keys_AB : list (uint256 * Z) := [(1, 1); (2, 1)].
Definition keys_BAA : list (uint256 * Z) := [(2, 1); (1, 1); (1, 1)].

Lemma txids_multi_order_free_witness :
  (1 < length keys_AB)%nat /\
  (1 < length keys_BAA)%nat /\
  (forall k, k ∈ scan_key <$> (indexA ++ indexB) <->
             k ∈ scan_key <$> (indexB ++ indexA ++ indexA)) /\
  txids_output keys_AB (indexA ++ indexB)
  = txids_output keys_BAA (indexB ++ indexA ++ indexA).
Proof.
  assert (H1 : (1 < length keys_AB)%nat) by (simpl; lia).
  assert (H2 : (1 < length keys_BAA)%nat) by (simpl; lia).
  assert (H3 : forall k, k ∈ scan_key <$> (indexA ++ indexB) <->
                         k ∈ scan_key <$> (indexB ++ indexA ++ indexA)).
  { intros k. rewrite !fmap_app, !elem_of_app. tauto. }
  split; [exact H1|]. split; [exact H2|]. split; [exact H3|].
  exact (txids_multi_order_free _ _ _ _ H1 H2 H3).
Defined.

Definition hashes_request : JSONRPCRequest :=
  mkRequest [VINT 2000; VINT 1000;
             VOBJ [("noOrphans", VBOOL true); ("logicalTimes", VBOOL true)]]
    (Some node).

Lemma blockhashes_result_witness :
  EnsureAnyChainman (context hashes_request) = Ok cm /\
  getInt (param (params hashes_request) 0) = Ok 2000 /\
  getInt (param (params hashes_request) 1) = Ok 1000 /\
  getblockhashes enabled hashes_request
  = Ok (VARR (map (blockhash_item true) [(1100, 10); (1101, 12)])) /\
  getblockhashes disabled hashes_request = Throw no_block_hashes.
Proof.
  do 3 (split; [reflexivity|]).
  rewrite (blockhashes_result enabled hashes_request cm 2000 1000
             eq_refl eq_refl eq_refl).
  rewrite (blockhashes_result disabled hashes_request cm 2000 1000
             eq_refl eq_refl eq_refl).
  split; reflexivity.
Defined.

Lemma spent_key_compare_strict_order_witness :
  (forall a, (a <? a) = false) /\
  (forall a b c, (a <? b) = true -> (b <? c) = true -> (a <? c) = true) /\
  (forall a b, (a <? b) = false -> (b <? a) = false -> a = b) /\
  StrictWeakOrder (CSpentIndexKeyCompare Z.ltb) /\
  CSpentIndexKeyCompare Z.ltb (mkSpentIndexKey 7 0) (mkSpentIndexKey 7 1)
  = true.
Proof.
  assert (H1 : forall a, (a <? a) = false) by (intros a; lia).
  assert (H2 : forall a b c,
             (a <? b) = true -> (b <? c) = true -> (a <? c) = true)
    by (intros a b c; lia).
  assert (H3 : forall a b, (a <? b) = false -> (b <? a) = false -> a = b)
    by (intros a b; lia).
  split; [exact H1|]. split; [exact H2|]. split; [exact H3|].
  destruct (spent_key_compare_strict_order Z.ltb H1 H2 H3) as (Hswo & _ & Hidx).
  split; [exact Hswo|].
  rewrite (Hidx (mkSpentIndexKey 7 0) (mkSpentIndexKey 7 1) eq_refl).
  reflexivity.
Defined.

(** A database whose unspent index holds an output of an address type
    that is none of the five. *)
Definition db_unknown_type : CBlockTreeDB := {|
  ReadAddressIndex := ReadAddressIndex db;
  ReadAddressUnspentIndex := fun addr ty =>
    Some [(mkAddressUnspentKey 9 1 8 2, mkAddressUnspentValue 5 [118; 169] 120)];
  ReadSpentIndex := ReadSpentIndex db;
  ReadTimestampIndex := ReadTimestampIndex db
|}.

Definition cm_unknown_type : ChainstateManager := {|
  m_block_tree_db := db_unknown_type;
  ActiveChain := chain;
  LookupBlockIndex := LookupBlockIndex cm
|}.

Definition unknown_type_request : JSONRPCRequest :=
  mkRequest [VOBJ [addresses ["addrA"]]]
    (Some (mkNodeContext (Some cm_unknown_type) (Some pool))).

Lemma utxos_unknown_type_fails_witness :
  EnsureAnyChainman (context unknown_type_request) = Ok cm_unknown_type /\
  fAddressIndex enabled = true /\
  utxos_chainInfo (param (params unknown_type_request) 0) = Ok false /\
  getAddressesFromParams (params unknown_type_request) []
  = Ok (true, keys_A) /\
  for_each keys_A (read_unspent enabled cm_unknown_type) []
  = Ok [(mkAddressUnspentKey 9 1 8 2, mkAddressUnspentValue 5 [118; 169] 120)] /\
  getaddressutxos enabled unknown_type_request = Throw unknown_address_type.
Proof.
  assert (H1 : EnsureAnyChainman (context unknown_type_request)
               = Ok cm_unknown_type) by reflexivity.
  assert (H2 : fAddressIndex enabled = true) by reflexivity.
  assert (H3 : utxos_chainInfo (param (params unknown_type_request) 0)
               = Ok false) by reflexivity.
  assert (H4 : getAddressesFromParams (params unknown_type_request) []
               = Ok (true, keys_A)) by reflexivity.
  assert (H5 : for_each keys_A (read_unspent enabled cm_unknown_type) []
               = Ok [(mkAddressUnspentKey 9 1 8 2,
                      mkAddressUnspentValue 5 [118; 169] 120)])
    by reflexivity.
  split; [exact H1|]. split; [exact H2|]. split; [exact H3|].
  split; [exact H4|]. split; [exact H5|].
  apply (utxos_unknown_type_fails enabled unknown_type_request cm_unknown_type
           _ _ false H1 H2 H3 H4 H5).
  apply Exists_cons_hd. reflexivity.
Defined.

Lemma spentinfo_validates_first_witness :
  context (request (VSTR "tx7")) = Some node /\
  mempool node = Some pool /\
  chainman node = Some cm /\
  getspentinfo disabled (request (VSTR "tx7")) = Throw not_an_object /\
  getspentinfo enabled (request (VOBJ [("txid", VSTR "tx7")]))
  = Throw invalid_txid_or_index.
Proof.
  do 3 (split; [reflexivity|]). split.
  - apply (proj1 (spentinfo_validates_first disabled (request (VSTR "tx7"))
                    node pool cm eq_refl eq_refl eq_refl)).
    reflexivity.
  - apply (proj2 (spentinfo_validates_first enabled
                    (request (VOBJ [("txid", VSTR "tx7")]))
                    node pool cm eq_refl eq_refl eq_refl)
             [("txid", VSTR "tx7")] eq_refl).
    right. reflexivity.
Defined.

Definition inverted_request : JSONRPCRequest :=
  request (VOBJ [addresses ["addrA"]; ("start", VINT 130); ("end", VINT 100)]).

Lemma txids_range_not_validated_witness :
  fAddressIndex enabled = true /\
  EnsureAnyChainman (context inverted_request) = Ok cm /\
  getAddressesFromParams (params inverted_request) [] = Ok (true, keys_A) /\
  getInt (find_key [addresses ["addrA"]; ("start", VINT 130);
                    ("end", VINT 100)] "start") = Ok 130 /\
  getInt (find_key [addresses ["addrA"]; ("start", VINT 130);
                    ("end", VINT 100)] "end") = Ok 100 /\
  getaddresstxids enabled inverted_request = Ok (VARR []) /\
  getaddressdeltas enabled inverted_request = Throw range_end_before_start.
Proof.
  assert (H1 : fAddressIndex enabled = true) by reflexivity.
  assert (H2 : EnsureAnyChainman (context inverted_request) = Ok cm)
    by reflexivity.
  assert (H3 : param (params inverted_request) 0
               = VOBJ [addresses ["addrA"]; ("start", VINT 130);
                       ("end", VINT 100)]) by reflexivity.
  assert (H4 : getAddressesFromParams (params inverted_request) []
               = Ok (true, keys_A)) by reflexivity.
  assert (H5 : getInt (find_key [addresses ["addrA"]; ("start", VINT 130);
                                 ("end", VINT 100)] "start") = Ok 130)
    by reflexivity.
  assert (H6 : getInt (find_key [addresses ["addrA"]; ("start", VINT 130);
                                 ("end", VINT 100)] "end") = Ok 100)
    by reflexivity.
  split; [exact H1|]. split; [exact H2|]. split; [exact H4|].
  split; [exact H5|]. split; [exact H6|]. split; [|reflexivity].
  rewrite (proj1 (txids_range_not_validated enabled inverted_request cm
                    _ _ 130 100 H1 H2 H3 H4 H5 H6)).
  reflexivity.
Defined.

End MoreOnSample.
